(** * ImApp: the Image / Pixel value types and the App layer stack

    A shallow embedding of [include/ImApp/imapp.hpp] and [src/imapp.cpp].

    - [std::uint32_t] and [std::uint8_t] values are integers in [Z]; every
      32-bit operation of the source is followed by its wrap-around
      ([U32.wrap32]).
    - [std::vector<Pixel>] is a [list Pixel]; [image_[i]] outside the vector
      is undefined behaviour and is reported as such ([Undefined]).
    - C++ exceptions are the [Throws] outcome.
    - Calls into OpenGL, GLFW, Dear ImGui, stb_image, the file system and the
      virtual hooks of user layers are recorded, in program order, in a log
      of [call]s; what those libraries answer is read from an environment
      ([Env]) that may depend on everything that happened before. *)

From stdpp Require Import base option list strings.
From Stdlib Require Import ZArith Lia.

Open Scope Z_scope.

(** ** Fixed-width unsigned integers *)

Module U32.

Definition modulus : Z := 2 ^ 32.

(** The value an unsigned 32-bit variable holds after an operation whose
    mathematical result is [z]. *)
Definition wrap32 (z : Z) : Z := z mod modulus.

Definition in_range (z : Z) : Prop := 0 <= z < modulus.

Definition mul (a b : Z) : Z := wrap32 (a * b).
Definition add (a b : Z) : Z := wrap32 (a + b).

(** [static_cast<std::size_t>] of a 32-bit unsigned value, as a container
    index or length. *)
Definition to_size_t (z : Z) : nat := Z.to_nat z.

End U32.

(** [static_cast<int>] of a 32-bit unsigned value (two's complement), also
    what an [int] or [GLsizei] parameter receives from one. *)
Definition to_int (z : Z) : Z := if z <? 2 ^ 31 then z else z - 2 ^ 32.

(** ** Outcomes of a C++ call *)

Inductive exn : Type :=
| runtime_error (what : string)
| out_of_range (what : string).

Inductive outcome (A : Type) : Type :=
| Returns (a : A)
| Throws (e : exn)
| Undefined.

Arguments Returns {A} a.
Arguments Throws {A} e.
Arguments Undefined {A}.

Definition outcome_bind {A B} (o : outcome A) (k : A -> outcome B) : outcome B :=
  match o with
  | Returns a => k a
  | Throws e => Throws e
  | Undefined => Undefined
  end.

(** ** Pixel *)

Record Pixel : Type := mkPixel { r_ : Z; g_ : Z; b_ : Z; a_ : Z }.

(** [Pixel() : r_(255), g_(255), b_(255), a_(255) {}] *)
Definition Pixel_default : Pixel := mkPixel 255 255 255 255.

(** [Pixel(R, G, B, A = 255)] *)
Definition Pixel_rgba (R G B A : Z) : Pixel := mkPixel R G B A.
Definition Pixel_rgb (R G B : Z) : Pixel := Pixel_rgba R G B 255.

(** The colour the specification calls opaque white. *)
Definition opaque_white : Pixel := mkPixel 255 255 255 255.

(** ** std::vector<Pixel> *)

Module Vector.

(** [std::vector<Pixel>(n, value)] *)
Definition fill (n : nat) (value : Pixel) : list Pixel := replicate n value.

(** [v.resize(n)]: keeps the first [n] elements; when [n] exceeds the
    current length, value-initialised elements ([Pixel()]) are appended. *)
Definition resize (n : nat) (v : list Pixel) : list Pixel :=
  list.resize n Pixel_default v.

(** [v[i]]: no bounds check, undefined outside the vector. *)
Definition index (v : list Pixel) (i : nat) : outcome Pixel :=
  match v !! i with
  | Some p => Returns p
  | None => Undefined
  end.

(** [v[i] = p] *)
Definition assign (v : list Pixel) (i : nat) (p : Pixel) : outcome (list Pixel) :=
  match v !! i with
  | Some _ => Returns (<[i := p]> v)
  | None => Undefined
  end.

End Vector.

(** ** The outside world *)

Inductive GLenum : Type :=
| GL_TEXTURE_2D
| GL_TEXTURE_MIN_FILTER
| GL_TEXTURE_MAG_FILTER
| GL_LINEAR
| GL_RGBA
| GL_UNSIGNED_BYTE
| GL_UNPACK_ROW_LENGTH
| GL_COLOR_BUFFER_BIT.

(** What [stbi_load] hands back on success: the two [int]s it writes and
    the byte buffer it returns (four bytes per pixel were asked for). *)
Record stbi_image : Type := mk_stbi_image {
  img_width : Z;
  img_height : Z;
  data : list Z
}.

Module Layer.

(** A layer object: [id] names the object (and whatever state its subclass
    adds), [app_] is the private back-pointer, [None] for [nullptr]. *)
Record t : Type := mk { id : nat; app_ : option nat }.

(** [Layer() : app_(nullptr) {}] *)
Definition ctor (id : nat) : t := {| id := id; app_ := None |}.

(** [App* app() const { return app_; }] *)
Definition app (l : t) : option nat := app_ l.

(** [void set_app_ptr(App* app_ptr) { app_ = app_ptr; }] *)
Definition set_app_ptr (app_ptr : option nat) (l : t) : t :=
  {| id := id l; app_ := app_ptr |}.

End Layer.

(** One entry per call that leaves the library.  A call that answers
    carries the answer ([ret]).  The hooks of a layer are virtual and
    opaque: the entry records the layer object they were invoked on, as it
    was at that moment. *)
Inductive call : Type :=
| std_filesystem_exists (fname : string) (ret : bool)
| stbi_load (fname : string) (desired_channels : Z) (ret : option stbi_image)
| stbi_failure_reason (ret : string)
| stbi_image_free
| glGenTextures (n : Z) (ret : Z)
| glBindTexture (target : GLenum) (texture : Z)
| glTexParameteri (target pname param : GLenum)
| glPixelStorei (pname : GLenum) (param : Z)
| glTexImage2D (target : GLenum) (level : Z) (internalformat : GLenum)
               (width height border : Z) (format type : GLenum)
               (pixels : list Pixel)
| glDeleteTextures (n : Z) (texture : Z)
| style_WindowRounding_assign
| style_Colors_WindowBg_w_assign
| glfwWindowShouldClose (ret : bool)
| glfwPollEvents
| ImGui_ImplOpenGL3_NewFrame
| ImGui_ImplGlfw_NewFrame
| ImGui_NewFrame
| ImGui_Render
| glfwGetFramebufferSize
| glViewport
| glClearColor
| glClear (mask : GLenum)
| ImGui_ImplOpenGL3_RenderDrawData
| glfwGetCurrentContext
| ImGui_UpdatePlatformWindows
| ImGui_RenderPlatformWindowsDefault
| glfwMakeContextCurrent
| glfwSwapBuffers
| ImGui_ImplOpenGL3_Shutdown
| ImGui_ImplGlfw_Shutdown
| ImPlot_DestroyContext
| ImGui_DestroyContext
| glfwDestroyWindow
| glfwTerminate
| Layer_on_push (l : Layer.t)
| Layer_render (l : Layer.t)
| Layer_on_kill (l : Layer.t).

(** The answers of the outside world, each a function of the calls made so
    far.  [ConfigFlags_now] is the value found in [io_->ConfigFlags] when
    the program reads it: that field belongs to Dear ImGui's global IO,
    which the layer hooks and the GUI library reach as well, so what is
    found depends on the calls made so far and on the value the App's own
    code left there. *)
Record Env : Type := mkEnv {
  fs_exists : list call -> string -> bool;
  stbi_decode : list call -> string -> option stbi_image;
  stbi_reason : list call -> string;
  gl_gen_name : list call -> Z;
  window_should_close : list call -> bool;
  ConfigFlags_now : list call -> Z -> Z
}.

(** ** Calls with effects: a log of calls threaded through, exceptions
    and undefined behaviour stopping the computation *)

Definition M (A : Type) : Type := list call -> outcome A * list call.

Definition M_ret {A} (a : A) : M A := fun log => (Returns a, log).

Definition M_bind {A B} (k : A -> M B) (m : M A) : M B :=
  fun log =>
    match m log with
    | (Returns a, log') => k a log'
    | (Throws e, log') => (Throws e, log')
    | (Undefined, log') => (Undefined, log')
    end.

#[global] Instance M_mret : MRet M := @M_ret.
#[global] Instance M_mbind : MBind M := @M_bind.

Definition throw {A} (e : exn) : M A := fun log => (Throws e, log).

Definition lift {A} (o : outcome A) : M A := fun log => (o, log).

(** A call that returns nothing the program looks at. *)
Definition emit (c : call) : M unit := fun log => (Returns tt, log ++ [c]).

(** A call whose answer the program uses. *)
Definition ask {A} (answer : list call -> A) (c : A -> call) : M A :=
  fun log => let a := answer log in (Returns a, log ++ [c a]).

(** [for (auto& x : xs) body(x);] *)
Fixpoint for_each {A} (body : A -> M unit) (xs : list A) : M unit :=
  match xs with
  | [] => mret tt
  | x :: xs' => body x;; for_each body xs'
  end.

(** What a computation added to the log. *)
Definition emitted {A} (m : M A) (log : list call) : list call :=
  drop (length log) (snd (m log)).

Definition is_glGenTextures (c : call) : bool :=
  match c with glGenTextures _ _ => true | _ => false end.

Definition is_codec_call (c : call) : bool :=
  match c with
  | stbi_load _ _ _ | stbi_failure_reason _ | stbi_image_free => true
  | _ => false
  end.

(** How many texture names the log asked OpenGL for. *)
Definition textures_generated (log : list call) : nat :=
  length (filter (fun c => is_glGenTextures c = true) log).

(** [x] occurs in [log] strictly before an occurrence of [y]. *)
Definition precedes (x y : call) (log : list call) : Prop :=
  exists l1 l2 l3, log = l1 ++ x :: l2 ++ y :: l3.

(** ** Image *)

Module Image.

Record t : Type := mk {
  height_ : Z;
  width_ : Z;
  image_ : list Pixel;
  ogl_texture_id_ : option Z
}.

(** [Image(std::uint32_t height, std::uint32_t width)]: the members are
    initialised in declaration order, so [image_] is built from the stored
    [height_] and [width_], multiplied as 32-bit unsigned values. *)
Definition ctor (height width : Z) : t :=
  {| height_ := height;
     width_ := width;
     image_ := Vector.fill (U32.to_size_t (U32.mul height width)) Pixel_default;
     ogl_texture_id_ := None |}.

(** The private [Image()]. *)
Definition ctor_empty : t :=
  {| height_ := 0; width_ := 0; image_ := []; ogl_texture_id_ := None |}.

Definition width (img : t) : Z := width_ img.
Definition height (img : t) : Z := height_ img.

(** [std::uint32_t size() const { return width_ * height_; }] *)
Definition size (img : t) : Z := U32.mul (width_ img) (height_ img).

Definition on_gpu (img : t) : bool :=
  match ogl_texture_id_ img with Some _ => true | None => false end.

Definition ogl_texture_id (img : t) : option Z := ogl_texture_id_ img.

Definition with_image (img : t) (v : list Pixel) : t :=
  {| height_ := height_ img; width_ := width_ img; image_ := v;
     ogl_texture_id_ := ogl_texture_id_ img |}.

Definition with_texture (img : t) (id : option Z) : t :=
  {| height_ := height_ img; width_ := width_ img; image_ := image_ img;
     ogl_texture_id_ := id |}.

(** The implicitly declared copy constructor ([Image] declares a
    destructor and nothing else): every member is copied, the handle
    included. *)
Definition copy_ctor (other : t) : t :=
  {| height_ := height_ other; width_ := width_ other; image_ := image_ other;
     ogl_texture_id_ := ogl_texture_id_ other |}.

(** The implicitly declared copy assignment [self = other]: every member
    of [self] is overwritten, its handle included; nothing is released. *)
Definition copy_assign (self other : t) : t :=
  {| height_ := height_ other; width_ := width_ other; image_ := image_ other;
     ogl_texture_id_ := ogl_texture_id_ other |}.

(** [operator[](std::size_t i)], read through the returned reference. *)
Definition op_index (img : t) (i : nat) : outcome Pixel :=
  Vector.index (image_ img) i.

(** [img[i] = p] *)
Definition assign_index (img : t) (i : nat) (p : Pixel) : outcome t :=
  outcome_bind (Vector.assign (image_ img) i p) (fun v => Returns (with_image img v)).

(** [std::size_t i = w + (h * width_);] with [w], [h] and [width_] all
    [std::uint32_t]: the sum is formed in 32 bits and then widened. *)
Definition linear_index (img : t) (h w : Z) : nat :=
  U32.to_size_t (U32.add w (U32.mul h (width_ img))).

(** [operator()(std::uint32_t h, std::uint32_t w)] *)
Definition op_call (img : t) (h w : Z) : outcome Pixel :=
  Vector.index (image_ img) (linear_index img h w).

(** [img(h, w) = p] *)
Definition assign_call (img : t) (h w : Z) (p : Pixel) : outcome t :=
  assign_index img (linear_index img h w) p.

(** [at(std::uint32_t h, std::uint32_t w)], both overloads: the checks,
    then [image_[i]]. *)
Definition at_ (img : t) (h w : Z) : outcome Pixel :=
  if h >=? height_ img then
    Throws (out_of_range "ImApp::Image::at: h must be < height.")
  else if w >=? width_ img then
    Throws (out_of_range "ImApp::Image::at: w must be < width.")
  else Vector.index (image_ img) (linear_index img h w).

(** [img.at(h, w) = p] *)
Definition assign_at (img : t) (h w : Z) (p : Pixel) : outcome t :=
  outcome_bind (at_ img h w) (fun _ => assign_index img (linear_index img h w) p).

(** [void resize(std::uint32_t height, std::uint32_t width)] *)
Definition resize (img : t) (height width : Z) : t :=
  {| height_ := height;
     width_ := width;
     image_ := Vector.resize (U32.to_size_t (U32.mul height width)) (image_ img);
     ogl_texture_id_ := ogl_texture_id_ img |}.

(** The class invariant the accessors rely on. *)
Definition buffer_matches_size (img : t) : Prop :=
  length (image_ img) = U32.to_size_t (size img).

Section Effects.

Variable env : Env.

(** Whether [GL_UNPACK_ROW_LENGTH] is defined and the build is not an
    Emscripten one (a build-time switch of [send_to_gpu]). *)
Variable unpack_row_length : bool.

(** [glTexImage2D(GL_TEXTURE_2D, 0, GL_RGBA, width_, height_, 0, GL_RGBA,
    GL_UNSIGNED_BYTE, image_.data())]: the two dimensions are received by
    [GLsizei] ([int]) parameters, and the whole buffer is handed over. *)
Definition tex_image_call (img : t) : call :=
  glTexImage2D GL_TEXTURE_2D 0 GL_RGBA (to_int (width_ img)) (to_int (height_ img)) 0
               GL_RGBA GL_UNSIGNED_BYTE (image_ img).

Definition tex_image (img : t) : M unit := emit (tex_image_call img).

(** [void Image::send_to_gpu()] *)
Definition send_to_gpu (img : t) : M t :=
  match ogl_texture_id_ img with
  | Some id =>
      emit (glBindTexture GL_TEXTURE_2D id);;
      tex_image img;;
      mret img
  | None =>
      texture_id ← ask (gl_gen_name env) (glGenTextures 1);
      emit (glBindTexture GL_TEXTURE_2D texture_id);;
      emit (glTexParameteri GL_TEXTURE_2D GL_TEXTURE_MIN_FILTER GL_LINEAR);;
      emit (glTexParameteri GL_TEXTURE_2D GL_TEXTURE_MAG_FILTER GL_LINEAR);;
      (if unpack_row_length then emit (glPixelStorei GL_UNPACK_ROW_LENGTH 0)
       else mret tt);;
      tex_image img;;
      mret (with_texture img (Some texture_id))
  end.

(** [void Image::delete_from_gpu()] *)
Definition delete_from_gpu (img : t) : M t :=
  match ogl_texture_id_ img with
  | Some id =>
      emit (glDeleteTextures 1 id);;
      mret (with_texture img None)
  | None => mret img
  end.

(** [~Image() { this->delete_from_gpu(); }]: the object as its destructor
    body leaves it.  C++ runs it whenever the object's lifetime ends,
    whichever way its scope is left, so it is stated for an image in any
    state. *)
Definition dtor (img : t) : M t := delete_from_gpu img.

Definition quote : string := String (Ascii.ascii_of_nat 34) EmptyString.
Definition newline : string := String (Ascii.ascii_of_nat 10) EmptyString.

Definition not_found_message (fname : string) : string :=
  ("ImApp::Image::from_file: File with name " +:+ quote)
    +:+ (fname +:+ quote +:+ " does not exist." +:+ newline).

Definition decode_failure_message (reason : string) : string :=
  ((("ImApp::Image::from_file: stbi_load failure." +:+ newline)
      +:+ "stbi_failure_reason: ") +:+ reason) +:+ newline.

(** [pdata[i]] where [pdata] is the byte buffer seen as an array of
    [Pixel]: the four bytes from offset [4 * i] on. *)
Definition pdata_index (bytes : list Z) (i : nat) : outcome Pixel :=
  match bytes !! (4 * i)%nat, bytes !! (4 * i + 1)%nat,
        bytes !! (4 * i + 2)%nat, bytes !! (4 * i + 3)%nat with
  | Some r, Some g, Some b, Some a => Returns (mkPixel r g b a)
  | _, _, _, _ => Undefined
  end.

(** [for (std::size_t i = ...; i < img.size(); i++) img[i] = pdata[i];]
    with [n] iterations left. *)
Fixpoint copy_pixels (bytes : list Z) (n : nat) (i : nat) (img : t) : outcome t :=
  match n with
  | O => Returns img
  | S n' =>
      outcome_bind (pdata_index bytes i) (fun p =>
      outcome_bind (assign_index img i p) (fun img' =>
      copy_pixels bytes n' (S i) img'))
  end.

(** [Image Image::from_file(const std::filesystem::path& fname)] *)
Definition from_file (fname : string) : M t :=
  found ← ask (fun log => fs_exists env log fname) (std_filesystem_exists fname);
  if negb found then throw (runtime_error (not_found_message fname))
  else
    loaded ← ask (fun log => stbi_decode env log fname) (stbi_load fname 4);
    match loaded with
    | None =>
        reason ← ask (stbi_reason env) stbi_failure_reason;
        throw (runtime_error (decode_failure_message reason))
    | Some decoded =>
        let width := U32.wrap32 (img_width decoded) in
        let height := U32.wrap32 (img_height decoded) in
        let img := ctor height width in
        img' ← lift (copy_pixels (data decoded) (U32.to_size_t (size img)) 0 img);
        emit stbi_image_free;;
        mret img'
    end.

(** The operations a program can apply to an image it owns. *)
Inductive op : Type :=
| Resize (height width : Z)
| AssignIndex (i : nat) (p : Pixel)
| AssignCall (h w : Z) (p : Pixel)
| AssignAt (h w : Z) (p : Pixel)
| SendToGpu
| DeleteFromGpu.

Definition apply (o : op) (img : t) : M t :=
  match o with
  | Resize height width => mret (resize img height width)
  | AssignIndex i p => lift (assign_index img i p)
  | AssignCall h w p => lift (assign_call img h w p)
  | AssignAt h w p => lift (assign_at img h w p)
  | SendToGpu => send_to_gpu img
  | DeleteFromGpu => delete_from_gpu img
  end.

Fixpoint apply_all (ops : list op) (img : t) : M t :=
  match ops with
  | [] => mret img
  | o :: ops' => img' ← apply o img; apply_all ops' img'
  end.

End Effects.

End Image.

(** ** App: the layer stack *)

Module App.

(** [this_] stands for the address of the App object, [ConfigFlags] for
    [io_->ConfigFlags], [layers_] for the vector of owned layers. *)
Record t : Type := mk {
  this_ : nat;
  ConfigFlags : Z;
  layers_ : list Layer.t
}.

Definition with_layers (app : t) (v : list Layer.t) : t :=
  {| this_ := this_ app; ConfigFlags := ConfigFlags app; layers_ := v |}.

(** [v.back()], undefined on an empty vector. *)
Definition back (v : list Layer.t) : outcome Layer.t :=
  match last v with
  | Some l => Returns l
  | None => Undefined
  end.

(** The vector after a member call on [v.back()] changed that element. *)
Definition update_back (f : Layer.t -> Layer.t) (v : list Layer.t) : list Layer.t :=
  alter f (length v - 1)%nat v.

(** [void push_layer(std::unique_ptr<Layer> layer)]:
    [layers_.push_back(std::move(layer)); layers_.back()->on_push();
     layers_.back()->set_app_ptr(this);] *)
Definition push_layer (app : t) (layer : Layer.t) : M t :=
  let app1 := with_layers app (layers_ app ++ [layer]) in
  l ← lift (back (layers_ app1));
  emit (Layer_on_push l);;
  _ ← lift (back (layers_ app1));
  mret (with_layers app1
          (update_back (Layer.set_app_ptr (Some (this_ app1))) (layers_ app1))).

Fixpoint push_layers (app : t) (layers : list Layer.t) : M t :=
  match layers with
  | [] => mret app
  | l :: rest => app' ← push_layer app l; push_layers app' rest
  end.

Section Loop.

Variable env : Env.

(** The value of the flag in [imgui.h]. *)
Variable ImGuiConfigFlags_ViewportsEnable : Z.

(** [flags & flag] as a condition. *)
Definition has_flag (flags flag : Z) : bool := negb (Z.land flags flag =? 0).

(** Reading [io_->ConfigFlags] at this point of the program. *)
Definition read_ConfigFlags (app : t) : M Z :=
  fun log => (Returns (ConfigFlags_now env log (ConfigFlags app)), log).

(** [for (auto& layer : layers_) layer->render();] *)
Definition render_layers (app : t) : M unit :=
  for_each (fun l => emit (Layer_render l)) (layers_ app).

(** One iteration of the main loop of [run]: the flags are read again in
    each, after the layers were rendered. *)
Definition frame (app : t) : M unit :=
  emit glfwPollEvents;;
  emit ImGui_ImplOpenGL3_NewFrame;;
  emit ImGui_ImplGlfw_NewFrame;;
  emit ImGui_NewFrame;;
  render_layers app;;
  emit ImGui_Render;;
  emit glfwGetFramebufferSize;;
  emit glViewport;;
  emit glClearColor;;
  emit (glClear GL_COLOR_BUFFER_BIT);;
  emit ImGui_ImplOpenGL3_RenderDrawData;;
  flags ← read_ConfigFlags app;
  (if has_flag flags ImGuiConfigFlags_ViewportsEnable then
     emit glfwGetCurrentContext;;
     emit ImGui_UpdatePlatformWindows;;
     emit ImGui_RenderPlatformWindowsDefault;;
     emit glfwMakeContextCurrent
   else mret tt);;
  emit glfwSwapBuffers.

(** [while (!glfwWindowShouldClose(window)) { ... }], at most [fuel]
    iterations of it: [true] when the loop was left, [false] when the
    iterations ran out first. *)
Fixpoint main_loop (fuel : nat) (app : t) : M bool :=
  match fuel with
  | O => mret false
  | S fuel' =>
      closing ← ask (window_should_close env) glfwWindowShouldClose;
      if (closing : bool) then mret true
      else frame app;; main_loop fuel' app
  end.

(** [void App::run()] *)
Definition run (fuel : nat) (app : t) : M bool :=
  flags ← read_ConfigFlags app;
  (if has_flag flags ImGuiConfigFlags_ViewportsEnable then
     emit style_WindowRounding_assign;;
     emit style_Colors_WindowBg_w_assign
   else mret tt);;
  main_loop fuel app.

End Loop.

(** [for (auto& layer : layers_) layer->on_kill();] *)
Definition kill_layers (app : t) : M unit :=
  for_each (fun l => emit (Layer_on_kill l)) (layers_ app).

(** [App::~App()] *)
Definition dtor (app : t) : M unit :=
  kill_layers app;;
  emit ImGui_ImplOpenGL3_Shutdown;;
  emit ImGui_ImplGlfw_Shutdown;;
  emit ImPlot_DestroyContext;;
  emit ImGui_DestroyContext;;
  emit glfwDestroyWindow;;
  emit glfwTerminate.

End App.

(** ** Vocabulary of the specification *)

(** Dimensions an image can be built with: two 32-bit unsigned values whose
    product is itself representable, so that the pixel count the constructor
    computes is the product. *)
Definition valid_dimensions (height width : Z) : Prop :=
  U32.in_range height /\ U32.in_range width /\ U32.in_range (height * width).

(** Some cell that [resize] added is not opaque white. *)
Definition new_cell_not_white (img : Image.t) (height width : Z) : Prop :=
  exists i : nat,
    (length (Image.image_ img) <= i < length (Image.image_ (Image.resize img height width)))%nat /\
    Image.image_ (Image.resize img height width) !! i <> Some opaque_white.

(** How an image comes to exist, and the whole life of one: construction
    followed by any operations on it. *)
Inductive origin : Type :=
| FromDimensions (height width : Z)
| FromFile (fname : string).

Definition construct (env : Env) (o : origin) : M Image.t :=
  match o with
  | FromDimensions height width => mret (Image.ctor height width)
  | FromFile fname => Image.from_file env fname
  end.

Definition lifetime (env : Env) (unpack_row_length : bool)
    (o : origin) (ops : list Image.op) : M Image.t :=
  img ← construct env o;
  Image.apply_all env unpack_row_length ops img.

(** How many iterations of the main loop the log has seen begin. *)
Definition frames_started (log : list call) : nat :=
  length (filter (fun c => match c with glfwWindowShouldClose false => true | _ => false end = true) log).

(** An outside world used in the examples: the file ["icon.png"] exists and
    decodes to a 2 x 1 image, every other file is missing; texture names
    are handed out in the order asked for; the window is closed at the
    third look; nobody but the App changes the configuration flags. *)
Definition example_env : Env :=
  {| fs_exists := fun _ fname => String.eqb fname "icon.png";
     stbi_decode := fun _ _ => Some (mk_stbi_image 2 1 [10; 20; 30; 255; 40; 50; 60; 255]);
     stbi_reason := fun _ => "unknown image type";
     gl_gen_name := fun log => 1 + Z.of_nat (textures_generated log);
     window_should_close := fun log =>
       Nat.leb 2 (frames_started log);
     ConfigFlags_now := fun _ flags => flags |}.

(** The calls of one frame around the rendering of the layers, and the
    calls of a whole frame for a given layer stack. *)
Definition frame_begin : list call :=
  [glfwPollEvents; ImGui_ImplOpenGL3_NewFrame; ImGui_ImplGlfw_NewFrame; ImGui_NewFrame].

Definition frame_end (viewports : bool) : list call :=
  [ImGui_Render; glfwGetFramebufferSize; glViewport; glClearColor;
   glClear GL_COLOR_BUFFER_BIT; ImGui_ImplOpenGL3_RenderDrawData]
  ++ (if viewports then
        [glfwGetCurrentContext; ImGui_UpdatePlatformWindows;
         ImGui_RenderPlatformWindowsDefault; glfwMakeContextCurrent]
      else [])
  ++ [glfwSwapBuffers].

Definition frame_calls (viewports : bool) (layers : list Layer.t) : list call :=
  frame_begin ++ map Layer_render layers ++ frame_end viewports.

(** The calls with which [~App] destroys the GUI contexts and the native
    window. *)
Definition teardown_calls : list call :=
  [ImGui_ImplOpenGL3_Shutdown; ImGui_ImplGlfw_Shutdown; ImPlot_DestroyContext;
   ImGui_DestroyContext; glfwDestroyWindow; glfwTerminate].

(** The calls of a frame up to the point where the flags are read. *)
Definition frame_until_flags (layers : list Layer.t) : list call :=
  frame_begin ++ map Layer_render layers
    ++ [ImGui_Render; glfwGetFramebufferSize; glViewport; glClearColor;
        glClear GL_COLOR_BUFFER_BIT; ImGui_ImplOpenGL3_RenderDrawData].

(** A look at the window that found it open, and the frame that follows
    it. *)
Definition looked_frame (layers : list Layer.t) (viewports : bool) : list call :=
  glfwWindowShouldClose false :: frame_calls viewports layers.

(** The first thing [run] does, according to the flags it finds. *)
Definition run_prelude (viewports : bool) : list call :=
  if viewports then [style_WindowRounding_assign; style_Colors_WindowBg_w_assign] else [].

(** The last entry of the loop: the look that found the window closed, if
    the loop was left. *)
Definition run_closing (left_loop : bool) : list call :=
  if left_loop then [glfwWindowShouldClose true] else [].

(** ** The rest of the library *)

Definition is_glDeleteTextures (c : call) : bool :=
  match c with glDeleteTextures _ _ => true | _ => false end.

(** How many texture names the log gave back to OpenGL. *)
Definition textures_deleted (log : list call) : nat :=
  length (filter (fun c => is_glDeleteTextures c = true) log).

Definition is_gl_call (c : call) : bool :=
  match c with
  | glGenTextures _ _ | glBindTexture _ _ | glTexParameteri _ _ _
  | glPixelStorei _ _ | glTexImage2D _ _ _ _ _ _ _ _ _ | glDeleteTextures _ _ => true
  | _ => false
  end.

(** The textures an image holds: one when it has a handle, none otherwise. *)
Definition textures_held (img : Image.t) : nat :=
  if Image.on_gpu img then 1%nat else 0%nat.

(** The operations that only concern the pixel buffer. *)
Definition is_buffer_op (o : Image.op) : bool :=
  match o with
  | Image.SendToGpu | Image.DeleteFromGpu => false
  | _ => true
  end.

(** The [ImGuiConfigFlags_] constants of [imgui.h] that the library uses. *)
Record ImGuiConfigFlags : Type := mkImGuiConfigFlags {
  ImGuiConfigFlags_NavEnableKeyboard : Z;
  ImGuiConfigFlags_NavEnableGamepad : Z;
  ImGuiConfigFlags_DockingEnable : Z;
  ImGuiConfigFlags_ViewportsEnable : Z
}.

(** ** App: the configuration switches *)

Module Flags.

Definition with_ConfigFlags (app : App.t) (flags : Z) : App.t :=
  {| App.this_ := App.this_ app; App.ConfigFlags := flags; App.layers_ := App.layers_ app |}.

Section Constants.

Variable K : ImGuiConfigFlags.

(** [io_->ConfigFlags |= ImGuiConfigFlags_DockingEnable;] *)
Definition enable_docking (app : App.t) : App.t :=
  with_ConfigFlags app (Z.lor (App.ConfigFlags app) (ImGuiConfigFlags_DockingEnable K)).

(** [io_->ConfigFlags &= ~(ImGuiConfigFlags_DockingEnable);] *)
Definition disable_docking (app : App.t) : App.t :=
  with_ConfigFlags app
    (Z.land (App.ConfigFlags app) (Z.lnot (ImGuiConfigFlags_DockingEnable K))).

Definition enable_viewports (app : App.t) : App.t :=
  with_ConfigFlags app (Z.lor (App.ConfigFlags app) (ImGuiConfigFlags_ViewportsEnable K)).

Definition disable_viewports (app : App.t) : App.t :=
  with_ConfigFlags app
    (Z.land (App.ConfigFlags app) (Z.lnot (ImGuiConfigFlags_ViewportsEnable K))).

Definition enable_gamepad (app : App.t) : App.t :=
  with_ConfigFlags app (Z.lor (App.ConfigFlags app) (ImGuiConfigFlags_NavEnableGamepad K)).

Definition disable_gamepad (app : App.t) : App.t :=
  with_ConfigFlags app
    (Z.land (App.ConfigFlags app) (Z.lnot (ImGuiConfigFlags_NavEnableGamepad K))).

Definition enable_keyboard (app : App.t) : App.t :=
  with_ConfigFlags app (Z.lor (App.ConfigFlags app) (ImGuiConfigFlags_NavEnableKeyboard K)).

Definition disable_keyboard (app : App.t) : App.t :=
  with_ConfigFlags app
    (Z.land (App.ConfigFlags app) (Z.lnot (ImGuiConfigFlags_NavEnableKeyboard K))).

End Constants.

(** The four capabilities that have a pair of switches. *)
Inductive feature : Type := Docking | Viewports | Gamepad | Keyboard.

Definition flag_of (K : ImGuiConfigFlags) (f : feature) : Z :=
  match f with
  | Docking => ImGuiConfigFlags_DockingEnable K
  | Viewports => ImGuiConfigFlags_ViewportsEnable K
  | Gamepad => ImGuiConfigFlags_NavEnableGamepad K
  | Keyboard => ImGuiConfigFlags_NavEnableKeyboard K
  end.

Definition enable (K : ImGuiConfigFlags) (f : feature) (app : App.t) : App.t :=
  match f with
  | Docking => enable_docking K app
  | Viewports => enable_viewports K app
  | Gamepad => enable_gamepad K app
  | Keyboard => enable_keyboard K app
  end.

Definition disable (K : ImGuiConfigFlags) (f : feature) (app : App.t) : App.t :=
  match f with
  | Docking => disable_docking K app
  | Viewports => disable_viewports K app
  | Gamepad => disable_gamepad K app
  | Keyboard => disable_keyboard K app
  end.

(** Whether the bits of a capability are all set in [io_->ConfigFlags]. *)
Definition enabled (K : ImGuiConfigFlags) (f : feature) (app : App.t) : Prop :=
  Z.land (App.ConfigFlags app) (flag_of K f) = flag_of K f.

(** Whether none of them is. *)
Definition disabled (K : ImGuiConfigFlags) (f : feature) (app : App.t) : Prop :=
  Z.land (App.ConfigFlags app) (flag_of K f) = 0.

End Flags.

(** The calls [run] makes only when viewports are enabled. *)
Definition is_viewport_call (c : call) : bool :=
  match c with
  | style_WindowRounding_assign | style_Colors_WindowBg_w_assign
  | glfwGetCurrentContext | ImGui_UpdatePlatformWindows
  | ImGui_RenderPlatformWindowsDefault | glfwMakeContextCurrent => true
  | _ => false
  end.

Definition is_hook_call (c : call) : bool :=
  match c with
  | Layer_on_push _ | Layer_render _ | Layer_on_kill _ => true
  | _ => false
  end.

(** ** App: construction and the window icon *)

Module Setup.

(** Which branch of the GL/GLSL version [#if] the build takes. *)
Inductive platform : Type := OpenGL_ES2 | Apple | Desktop.

Inductive hint : Type :=
| GLFW_CONTEXT_VERSION_MAJOR
| GLFW_CONTEXT_VERSION_MINOR
| GLFW_CLIENT_API
| GLFW_OPENGL_PROFILE
| GLFW_OPENGL_FORWARD_COMPAT.

Inductive hint_value : Type :=
| number (n : Z)
| GLFW_OPENGL_ES_API
| GLFW_OPENGL_CORE_PROFILE
| GL_TRUE.

Inductive font : Type := RobotoRegular | FASolid | FABrands.

Inductive icon_ranges : Type := fa_icons_ranges | fab_icons_ranges.

(** The fields of [ImFontConfig] the constructor sets. *)
Record ImFontConfig : Type := mkImFontConfig {
  MergeMode : bool;
  PixelSnapH : bool;
  GlyphMinAdvanceX : Z
}.

(** The calls of the constructor and of [set_icon], none of which carries
    the window: the App has one window. *)
Inductive call : Type :=
| glfwSetErrorCallback
| glfwInit (ret : bool)
| std_exit (status : Z)
| glfwWindowHint (h : hint) (value : hint_value)
| glfwCreateWindow (w h : Z) (name : string) (ret : bool)
| glfwMakeContextCurrent
| glfwSwapInterval (interval : Z)
| IMGUI_CHECKVERSION
| ImGui_CreateContext
| ImPlot_CreateContext
| ImGui_GetStyle
| ImGui_GetIO (ConfigFlags : Z)
| AddFontFromMemoryCompressedTTF (f : font) (size_pixels : Z)
                                 (config : option (ImFontConfig * icon_ranges))
| set_default_style
| ImGui_ImplGlfw_InitForOpenGL (install_callbacks : bool)
| ImGui_ImplOpenGL3_Init (glsl_version : string)
| glfwSetWindowIcon (count : Z) (width height : Z) (pixels : list Pixel).

(** What the outside world answers during construction: whether
    [glfwInit] succeeds, whether [glfwCreateWindow] returns a window, and
    the [ConfigFlags] of the fresh [ImGuiIO]. *)
Record Env : Type := mkEnv {
  glfwInit_ok : bool;
  window_created : bool;
  io_ConfigFlags : Z
}.

(** A constructor call either ends the process ([std::exit]) or leaves an
    App. *)
Inductive result : Type :=
| Exited (status : Z)
| Constructed (app : App.t).

Definition glsl_version (p : platform) : string :=
  match p with
  | OpenGL_ES2 => "#version 100"
  | Apple => "#version 150"
  | Desktop => "#version 130"
  end.

Definition window_hints (p : platform) : list call :=
  match p with
  | OpenGL_ES2 =>
      [glfwWindowHint GLFW_CONTEXT_VERSION_MAJOR (number 2);
       glfwWindowHint GLFW_CONTEXT_VERSION_MINOR (number 0);
       glfwWindowHint GLFW_CLIENT_API GLFW_OPENGL_ES_API]
  | Apple =>
      [glfwWindowHint GLFW_CONTEXT_VERSION_MAJOR (number 3);
       glfwWindowHint GLFW_CONTEXT_VERSION_MINOR (number 2);
       glfwWindowHint GLFW_OPENGL_PROFILE GLFW_OPENGL_CORE_PROFILE;
       glfwWindowHint GLFW_OPENGL_FORWARD_COMPAT GL_TRUE]
  | Desktop =>
      [glfwWindowHint GLFW_CONTEXT_VERSION_MAJOR (number 3);
       glfwWindowHint GLFW_CONTEXT_VERSION_MINOR (number 0)]
  end.

Definition FONT_SIZE : Z := 18.
Definition ICON_FONT_SIZE : Z := 16.

Definition icons_config : ImFontConfig :=
  {| MergeMode := true; PixelSnapH := true; GlyphMinAdvanceX := ICON_FONT_SIZE |}.

Definition load_fonts : list call :=
  [AddFontFromMemoryCompressedTTF RobotoRegular FONT_SIZE None;
   AddFontFromMemoryCompressedTTF FASolid ICON_FONT_SIZE (Some (icons_config, fa_icons_ranges));
   AddFontFromMemoryCompressedTTF FABrands ICON_FONT_SIZE (Some (icons_config, fab_icons_ranges))].

(** [App::App(int w, int h, const char* name)], for the App object at
    address [this]. *)
Definition ctor (env : Env) (K : ImGuiConfigFlags) (p : platform)
    (this : nat) (w h : Z) (name : string) : result * list call :=
  if negb (glfwInit_ok env) then
    (Exited 1, [glfwSetErrorCallback; glfwInit false; std_exit 1])
  else if negb (window_created env) then
    (Exited 1,
     [glfwSetErrorCallback; glfwInit true] ++ window_hints p
       ++ [glfwCreateWindow w h name false; std_exit 1])
  else
    let app := {| App.this_ := this; App.ConfigFlags := io_ConfigFlags env;
                  App.layers_ := [] |} in
    (Constructed (Flags.enable_keyboard K app),
     [glfwSetErrorCallback; glfwInit true] ++ window_hints p
       ++ [glfwCreateWindow w h name true; glfwMakeContextCurrent; glfwSwapInterval 1;
           IMGUI_CHECKVERSION; ImGui_CreateContext; ImPlot_CreateContext;
           ImGui_GetStyle; ImGui_GetIO (io_ConfigFlags env)]
       ++ load_fonts
       ++ [set_default_style; ImGui_ImplGlfw_InitForOpenGL true;
           ImGui_ImplOpenGL3_Init (glsl_version p)]).


End Setup.

(** Four distinct single bits for the four constants, used in the
    examples. *)
Definition imgui_flags : ImGuiConfigFlags :=
  {| ImGuiConfigFlags_NavEnableKeyboard := 1;
     ImGuiConfigFlags_NavEnableGamepad := 2;
     ImGuiConfigFlags_DockingEnable := 128;
     ImGuiConfigFlags_ViewportsEnable := 1024 |}.

(** ** The PNG compression hook (built when [IMAPP_USE_ZLIB] is defined) *)

Module Zlib.

Definition Z_OK : Z := 0.

(** The calls into zlib and the C allocator, each with what it answered;
    [compress2] also answers the length it stored through [destLen]. *)
Inductive call : Type :=
| compressBound (sourceLen : Z) (ret : Z)
| malloc (size : Z) (ret : option nat)
| compress2 (dest : nat) (destLen : Z) (source : list Z) (sourceLen : Z) (level : Z)
            (ret : Z) (destLen_out : Z)
| free (ptr : nat).

Record Env : Type := mkEnv {
  bound : Z -> Z;
  allocate : Z -> option nat;
  compress : nat -> Z -> list Z -> Z -> Z -> Z * Z
}.

Section Widths.

(** [2 ^ n] for the [n] bits of zlib's [uLong] ([unsigned long]) on the
    platform. *)
Variable uLong_modulus : Z.

(** An [int] passed where a [uLong] is expected. *)
Definition to_uLong (z : Z) : Z := z mod uLong_modulus.

(** A [uLongf] stored into an [int]. *)
Definition uLong_to_int (z : Z) : Z := to_int (z mod 2 ^ 32).

(** [unsigned char* zlib_compression_for_stbiw(unsigned char* data,
    int data_len, int* out_len, int quality)]: the pointer returned
    ([None] for [NULL]), what was stored through [out_len] if anything was,
    and the calls made. *)
Definition zlib_compression_for_stbiw (env : Env)
    (data : list Z) (data_len : Z) (quality : Z)
    : option nat * option Z * list call :=
  let bufSize := bound env (to_uLong data_len) in
  let asked := [compressBound (to_uLong data_len) bufSize] in
  match allocate env bufSize with
  | None => (None, None, asked ++ [malloc bufSize None])
  | Some buf =>
      let '(status, written) := compress env buf bufSize data (to_uLong data_len) quality in
      let compressed :=
        compress2 buf bufSize data (to_uLong data_len) quality status written in
      if negb (status =? Z_OK) then
        (None, None, asked ++ [malloc bufSize (Some buf); compressed; free buf])
      else
        (Some buf, Some (uLong_to_int written),
         asked ++ [malloc bufSize (Some buf); compressed])
  end.

End Widths.

(** The buffers the log allocated and the buffers it freed, in order. *)
Definition allocated (log : list call) : list nat :=
  omap (fun c => match c with malloc _ (Some ptr) => Some ptr | _ => None end) log.

Definition freed (log : list call) : list nat :=
  omap (fun c => match c with free ptr => Some ptr | _ => None end) log.

End Zlib.

(** * Properties *)

(** ** 32-bit arithmetic *)

Lemma wrap32_range z : U32.in_range (U32.wrap32 z).
Proof. unfold U32.in_range, U32.wrap32, U32.modulus. apply Z.mod_pos_bound. lia. Qed.

Lemma wrap32_small z : U32.in_range z -> U32.wrap32 z = z.
Proof. unfold U32.in_range, U32.wrap32. intros H. by apply Z.mod_small. Qed.

Lemma mul_comm a b : U32.mul a b = U32.mul b a.
Proof. unfold U32.mul. f_equal. lia. Qed.

Lemma mul_exact a b : U32.in_range (a * b) -> U32.mul a b = a * b.
Proof. apply wrap32_small. Qed.

Lemma mul_overflow a b : U32.modulus <= a * b -> U32.mul a b <> a * b.
Proof.
  intros Hge Heq. pose proof (wrap32_range (a * b)) as Hr.
  unfold U32.mul in Heq. unfold U32.in_range in Hr. lia.
Qed.

Lemma to_int_small z : 0 <= z < 2 ^ 31 -> to_int z = z.
Proof. intros Hz. unfold to_int. destruct (Z.ltb_spec z (2 ^ 31)); lia. Qed.

Lemma to_int_large z : 2 ^ 31 <= z -> to_int z = z - 2 ^ 32.
Proof. intros Hz. unfold to_int. destruct (Z.ltb_spec z (2 ^ 31)); lia. Qed.

(** A row/column pair inside a [height] x [width] grid has a linear index
    below [height * width], so no 32-bit step of its computation wraps when
    the product itself fits. *)
Lemma linear_index_bound h w height width :
  0 <= h < height -> 0 <= w < width -> 0 <= w + h * width < height * width.
Proof. intros Hh Hw. nia. Qed.

Lemma linear_index_exact h w height width :
  0 <= h < height -> 0 <= w < width -> U32.in_range (height * width) ->
  U32.add w (U32.mul h width) = w + h * width.
Proof.
  intros Hh Hw Hr. pose proof (linear_index_bound h w height width Hh Hw) as Hb.
  unfold U32.in_range in Hr. unfold U32.add, U32.mul.
  rewrite (wrap32_small (h * width)) by (unfold U32.in_range; nia).
  apply wrap32_small. unfold U32.in_range. lia.
Qed.

(** ** Vectors *)

Lemma vector_fill_length n p : length (Vector.fill n p) = n.
Proof. apply length_replicate. Qed.

Lemma vector_fill_all n p : Forall (fun q => q = p) (Vector.fill n p).
Proof. unfold Vector.fill. induction n as [|n IH]; simpl; by constructor. Qed.

Lemma vector_resize_length n v : length (Vector.resize n v) = n.
Proof. apply length_resize. Qed.

Lemma vector_resize_keeps n v i :
  (i < n)%nat -> (i < length v)%nat -> Vector.resize n v !! i = v !! i.
Proof. intros. by apply lookup_resize. Qed.

Lemma vector_resize_appends n v i :
  (length v <= i)%nat -> (i < n)%nat -> Vector.resize n v !! i = Some Pixel_default.
Proof. intros. by apply lookup_resize_new. Qed.

Lemma vector_resize_grow n v :
  (length v <= n)%nat ->
  Vector.resize n v = v ++ replicate (n - length v) Pixel_default.
Proof. intros. by apply resize_ge. Qed.

Lemma vector_assign_length v i p v' :
  Vector.assign v i p = Returns v' -> length v' = length v.
Proof.
  unfold Vector.assign. destruct (v !! i); [|discriminate].
  intros [= <-]. apply length_insert.
Qed.

Lemma vector_index_in_range v i :
  (i < length v)%nat -> exists p, Vector.index v i = Returns p /\ v !! i = Some p.
Proof.
  intros Hi. destruct (lookup_lt_is_Some_2 v i Hi) as [p Hp].
  exists p. unfold Vector.index. by rewrite Hp.
Qed.

Lemma vector_index_out_of_range v i :
  (length v <= i)%nat -> Vector.index v i = Undefined.
Proof. intros Hi. unfold Vector.index. by rewrite lookup_ge_None_2. Qed.

(** ** Construction and size *)

Lemma ctor_length height width :
  length (Image.image_ (Image.ctor height width)) = U32.to_size_t (U32.mul height width).
Proof. apply vector_fill_length. Qed.

Lemma ctor_buffer_matches_size height width :
  Image.buffer_matches_size (Image.ctor height width).
Proof.
  unfold Image.buffer_matches_size, Image.size. rewrite ctor_length.
  simpl. by rewrite mul_comm.
Qed.

(** C9. For all valid (height, width), an image freshly constructed with
    those dimensions has exactly height*width pixels, each equal to opaque
    white (255,255,255,255).  Valid dimensions are 32-bit unsigned values
    whose product is representable in 32 bits. *)
Theorem fresh_image_is_opaque_white (height width : Z) :
  valid_dimensions height width ->
  Z.of_nat (length (Image.image_ (Image.ctor height width))) = height * width /\
  Forall (fun p => p = opaque_white) (Image.image_ (Image.ctor height width)) /\
  (forall i : nat, Z.of_nat i < height * width ->
     Image.op_index (Image.ctor height width) i = Returns (mkPixel 255 255 255 255)) /\
  Image.height (Image.ctor height width) = height /\
  Image.width (Image.ctor height width) = width.
Proof.
  intros (Hh & Hw & Hp).
  assert (Hlen : Z.of_nat (length (Image.image_ (Image.ctor height width))) = height * width).
  { rewrite ctor_length, mul_exact by exact Hp.
    unfold U32.to_size_t, U32.in_range in *. lia. }
  split; [exact Hlen|]. split; [apply vector_fill_all|].
  split; [|split; reflexivity].
  intros i Hi. unfold Image.op_index.
  destruct (vector_index_in_range (Image.image_ (Image.ctor height width)) i) as (p & Hidx & Hlook).
  { lia. }
  rewrite Hidx. f_equal.
  pose proof (vector_fill_all (U32.to_size_t (U32.mul height width)) Pixel_default) as Hall.
  rewrite Forall_lookup in Hall. exact (Hall i p Hlook).
Qed.

Lemma fresh_image_is_opaque_white_witness :
  Z.of_nat (length (Image.image_ (Image.ctor 2 3))) = 2 * 3 /\
  Forall (fun p => p = opaque_white) (Image.image_ (Image.ctor 2 3)).
Proof.
  assert (Hv : valid_dimensions 2 3).
  { unfold valid_dimensions, U32.in_range, U32.modulus. lia. }
  pose proof (fresh_image_is_opaque_white 2 3 Hv) as (Hlen & Hall & _).
  split; [exact Hlen | exact Hall].
Defined.

(** C10. [size()] is width*height in 32-bit unsigned arithmetic, that is
    (width*height) mod 2^32; an image constructed with dimensions whose
    product is at least 2^32 gets a buffer of (height*width) mod 2^32
    pixels, not height*width. *)
Theorem size_is_product_mod_2_32 (img : Image.t) (height width : Z) :
  Image.size img = (Image.width img * Image.height img) mod 2 ^ 32 /\
  Image.size (Image.ctor height width) = (height * width) mod 2 ^ 32 /\
  Z.of_nat (length (Image.image_ (Image.ctor height width))) = (height * width) mod 2 ^ 32 /\
  (2 ^ 32 <= height * width ->
     Z.of_nat (length (Image.image_ (Image.ctor height width))) <> height * width).
Proof.
  assert (Hlen : Z.of_nat (length (Image.image_ (Image.ctor height width)))
                 = (height * width) mod 2 ^ 32).
  { rewrite ctor_length. unfold U32.to_size_t, U32.mul.
    pose proof (wrap32_range (height * width)) as Hr.
    unfold U32.in_range in Hr. unfold U32.wrap32, U32.modulus in *. lia. }
  split; [reflexivity|]. split.
  { unfold Image.size, U32.mul, U32.wrap32, U32.modulus. simpl. f_equal. lia. }
  split; [exact Hlen|].
  intros Hge. rewrite Hlen.
  pose proof (Z.mod_pos_bound (height * width) (2 ^ 32)). lia.
Qed.

Lemma size_is_product_mod_2_32_witness :
  Z.of_nat (length (Image.image_ (Image.ctor 65536 65537))) = 65536 /\
  Z.of_nat (length (Image.image_ (Image.ctor 65536 65537))) <> 65536 * 65537.
Proof.
  pose proof (size_is_product_mod_2_32 Image.ctor_empty 65536 65537) as (_ & _ & Hlen & Hne).
  split.
  - rewrite Hlen. reflexivity.
  - apply Hne. lia.
Defined.

(** ** Resizing *)

Lemma resize_length img height width :
  length (Image.image_ (Image.resize img height width))
  = U32.to_size_t (U32.mul height width).
Proof. apply vector_resize_length. Qed.

Lemma resize_buffer_matches_size img height width :
  Image.buffer_matches_size (Image.resize img height width).
Proof.
  unfold Image.buffer_matches_size, Image.size. rewrite resize_length.
  simpl. by rewrite mul_comm.
Qed.

Lemma resize_keeps_texture img height width :
  Image.ogl_texture_id (Image.resize img height width) = Image.ogl_texture_id img.
Proof. reflexivity. Qed.

(** Whether the buffer grows or shrinks, a linear index that survives keeps
    its pixel. *)
Lemma resize_surviving_index img height width (i : nat) :
  (i < length (Image.image_ img))%nat ->
  (i < length (Image.image_ (Image.resize img height width)))%nat ->
  Image.image_ (Image.resize img height width) !! i = Image.image_ img !! i.
Proof.
  intros Hold Hnew. rewrite resize_length in Hnew.
  by apply vector_resize_keeps.
Qed.

(** C3, as the specification words it, fails: growing a 1 x 1 image holding
    one black pixel to 2 x 2 adds three cells, and each of them is opaque
    white. *)
Lemma resize_new_cells_counterexample :
  let img := Image.with_image (Image.ctor 1 1) [mkPixel 0 0 0 255] in
  (length (Image.image_ img) < length (Image.image_ (Image.resize img 2 2)))%nat /\
  Image.image_ (Image.resize img 2 2)
  = [mkPixel 0 0 0 255; opaque_white; opaque_white; opaque_white] /\
  ~ new_cell_not_white img 2 2.
Proof.
  cbn zeta. split; [vm_compute; lia|]. split; [reflexivity|].
  intros (i & [Hlo Hhi] & Hne). apply Hne.
  change (Image.image_ (Image.resize (Image.with_image (Image.ctor 1 1) [mkPixel 0 0 0 255]) 2 2))
    with [mkPixel 0 0 0 255; opaque_white; opaque_white; opaque_white] in *.
  simpl in Hlo, Hhi.
  destruct i as [|[|[|[|i]]]]; simpl in *; try reflexivity; lia.
Qed.

(** C3 (amended). A [resize(height, width)] that grows the buffer appends
    the new cells at the end of the underlying storage, each of them
    value-initialised by [Pixel()], that is opaque white, as the doc comment
    of [resize] says; existing pixel data is not moved: the pixels at the
    surviving linear indices are unchanged. *)
Theorem resize_appends_white_cells (img : Image.t) (height width : Z) :
  (length (Image.image_ img) <= length (Image.image_ (Image.resize img height width)))%nat ->
  Image.image_ (Image.resize img height width)
  = Image.image_ img
    ++ replicate (length (Image.image_ (Image.resize img height width))
                  - length (Image.image_ img)) opaque_white /\
  (forall i : nat, (i < length (Image.image_ img))%nat ->
     Image.image_ (Image.resize img height width) !! i = Image.image_ img !! i) /\
  (forall i : nat,
     (length (Image.image_ img) <= i < length (Image.image_ (Image.resize img height width)))%nat ->
     Image.image_ (Image.resize img height width) !! i = Some opaque_white) /\
  Image.height (Image.resize img height width) = height /\
  Image.width (Image.resize img height width) = width.
Proof.
  intros Hgrow. pose proof (resize_length img height width) as Hlen.
  rewrite Hlen in *. repeat split.
  - by apply vector_resize_grow.
  - intros i Hi. apply vector_resize_keeps; lia.
  - intros i [Hlo Hhi]. by apply vector_resize_appends.
Qed.

Lemma resize_appends_white_cells_witness :
  Image.image_ (Image.resize (Image.with_image (Image.ctor 1 1) [mkPixel 0 0 0 255]) 2 2)
    !! 3%nat = Some opaque_white.
Proof.
  pose proof (resize_appends_white_cells
                (Image.with_image (Image.ctor 1 1) [mkPixel 0 0 0 255]) 2 2) as H.
  destruct H as (_ & _ & Hnew & _).
  - vm_compute. lia.
  - apply Hnew. vm_compute. lia.
Defined.

(** ** Running effectful calls *)

Ltac run_M :=
  cbv [mbind mret M_mbind M_bind M_mret M_ret emit ask throw lift].

Lemma bind_returns {A B} (m : M A) (k : A -> M B) log a log' :
  m log = (Returns a, log') -> (m ≫= k) log = k a log'.
Proof. intros H. run_M. by rewrite H. Qed.

Lemma bind_returns_inv {A B} (m : M A) (k : A -> M B) log b log'' :
  (m ≫= k) log = (Returns b, log'') ->
  exists a log', m log = (Returns a, log') /\ k a log' = (Returns b, log'').
Proof.
  run_M. destruct (m log) as [[a| |] log'] eqn:Hm; try discriminate.
  intros Hk. by exists a, log'.
Qed.

Lemma for_each_emit {A} (c : A -> call) (xs : list A) log :
  for_each (fun x => emit (c x)) xs log = (Returns tt, log ++ map c xs).
Proof.
  revert log. induction xs as [|x xs IH]; intros log; simpl.
  - run_M. by rewrite app_nil_r.
  - run_M. rewrite IH. by rewrite <- app_assoc.
Qed.

Lemma emitted_app {A} (m : M A) log o log1 :
  m log = (o, log ++ log1) -> emitted m log = log1.
Proof. intros H. unfold emitted. rewrite H. simpl. by rewrite drop_app_length. Qed.

(** ** The GPU handle *)

Lemma send_to_gpu_first env unpack img log :
  Image.ogl_texture_id img = None ->
  Image.send_to_gpu env unpack img log
  = (Returns (Image.with_texture img (Some (gl_gen_name env log))),
     log ++ [glGenTextures 1 (gl_gen_name env log);
             glBindTexture GL_TEXTURE_2D (gl_gen_name env log);
             glTexParameteri GL_TEXTURE_2D GL_TEXTURE_MIN_FILTER GL_LINEAR;
             glTexParameteri GL_TEXTURE_2D GL_TEXTURE_MAG_FILTER GL_LINEAR]
         ++ (if unpack then [glPixelStorei GL_UNPACK_ROW_LENGTH 0] else [])
         ++ [Image.tex_image_call img]).
Proof.
  unfold Image.ogl_texture_id, Image.send_to_gpu, Image.tex_image. intros ->.
  destruct unpack; run_M; rewrite <- ?app_assoc; reflexivity.
Qed.

Lemma send_to_gpu_again env unpack img id log :
  Image.ogl_texture_id img = Some id ->
  Image.send_to_gpu env unpack img log
  = (Returns img, log ++ [glBindTexture GL_TEXTURE_2D id; Image.tex_image_call img]).
Proof.
  unfold Image.ogl_texture_id, Image.send_to_gpu, Image.tex_image. intros ->.
  run_M. rewrite <- ?app_assoc. reflexivity.
Qed.

Lemma textures_generated_app l1 l2 :
  textures_generated (l1 ++ l2) = (textures_generated l1 + textures_generated l2)%nat.
Proof. unfold textures_generated. by rewrite filter_app, length_app. Qed.

Lemma send_to_gpu_leaves_handle env unpack img log :
  exists img1 id log1,
    Image.send_to_gpu env unpack img log = (Returns img1, log ++ log1) /\
    Image.ogl_texture_id img1 = Some id.
Proof.
  destruct (Image.ogl_texture_id img) as [id0|] eqn:Hid.
  - exists img, id0. eexists. split; [by apply send_to_gpu_again | exact Hid].
  - exists (Image.with_texture img (Some (gl_gen_name env log))), (gl_gen_name env log).
    eexists. split; [rewrite send_to_gpu_first by exact Hid; reflexivity | reflexivity].
Qed.

(** C1. Upload ([send_to_gpu]) always succeeds and leaves a handle.  When
    there was none, exactly one texture name is asked of OpenGL and becomes
    the handle, the texture is bound, its filters are set and the full
    pixel buffer is uploaded.  When there was one, the image is left as it
    was, no texture name is asked for, and the calls are exactly: bind the
    existing texture, upload the full pixel buffer.  Every later call
    therefore re-uploads the full buffer into the same texture and the
    handle the accessor returns does not change.  The upload is
    [glTexImage2D] with the whole of [image_] and with the width and height
    as their [GLsizei] parameters receive them. *)
Theorem send_to_gpu_idempotent_monotonic
    (env : Env) (unpack : bool) (img : Image.t) (log : list call) :
  exists (img1 : Image.t) (id : Z) (log1 : list call) (w h : Z),
    let upload := fun buffer : list Pixel =>
      glTexImage2D GL_TEXTURE_2D 0 GL_RGBA w h 0 GL_RGBA GL_UNSIGNED_BYTE buffer in
    Image.send_to_gpu env unpack img log = (Returns img1, log ++ log1) /\
    Image.ogl_texture_id img1 = Some id /\ Image.on_gpu img1 = true /\
    Image.image_ img1 = Image.image_ img /\
    Image.height img1 = Image.height img /\ Image.width img1 = Image.width img /\
    (0 <= Image.width img < 2 ^ 31 -> w = Image.width img) /\
    (2 ^ 31 <= Image.width img < 2 ^ 32 -> w = Image.width img - 2 ^ 32) /\
    (0 <= Image.height img < 2 ^ 31 -> h = Image.height img) /\
    (2 ^ 31 <= Image.height img < 2 ^ 32 -> h = Image.height img - 2 ^ 32) /\
    (Image.ogl_texture_id img = None ->
       Image.on_gpu img = false /\ id = gl_gen_name env log /\
       log1 = [glGenTextures 1 id; glBindTexture GL_TEXTURE_2D id;
               glTexParameteri GL_TEXTURE_2D GL_TEXTURE_MIN_FILTER GL_LINEAR;
               glTexParameteri GL_TEXTURE_2D GL_TEXTURE_MAG_FILTER GL_LINEAR]
              ++ (if unpack then [glPixelStorei GL_UNPACK_ROW_LENGTH 0] else [])
              ++ [upload (Image.image_ img)] /\
       textures_generated log1 = 1%nat) /\
    (forall id0, Image.ogl_texture_id img = Some id0 ->
       id = id0 /\ img1 = img /\
       log1 = [glBindTexture GL_TEXTURE_2D id0; upload (Image.image_ img)] /\
       textures_generated log1 = 0%nat) /\
    (forall log' : list call,
       Image.send_to_gpu env unpack img1 log'
       = (Returns img1,
          log' ++ [glBindTexture GL_TEXTURE_2D id; upload (Image.image_ img1)])).
Proof.
  exists (match Image.ogl_texture_id img with
          | Some _ => img
          | None => Image.with_texture img (Some (gl_gen_name env log))
          end),
    (match Image.ogl_texture_id img with Some id0 => id0 | None => gl_gen_name env log end),
    (drop (length log) (snd (Image.send_to_gpu env unpack img log))),
    (to_int (Image.width img)), (to_int (Image.height img)).
  cbn zeta.
  assert (Hconv :
    (0 <= Image.width img < 2 ^ 31 -> to_int (Image.width img) = Image.width img) /\
    (2 ^ 31 <= Image.width img < 2 ^ 32 ->
       to_int (Image.width img) = Image.width img - 2 ^ 32) /\
    (0 <= Image.height img < 2 ^ 31 -> to_int (Image.height img) = Image.height img) /\
    (2 ^ 31 <= Image.height img < 2 ^ 32 ->
       to_int (Image.height img) = Image.height img - 2 ^ 32)).
  { split; [apply to_int_small|]. split; [intros [? _]; by apply to_int_large|].
    split; [apply to_int_small|]. intros [? _]. by apply to_int_large. }
  destruct Hconv as (Hw1 & Hw2 & Hh1 & Hh2).
  destruct (Image.ogl_texture_id img) as [id0|] eqn:Hid.
  - rewrite (send_to_gpu_again env unpack img id0 log Hid). cbn [snd].
    rewrite drop_app_length.
    split; [reflexivity|]. split; [exact Hid|].
    split; [unfold Image.on_gpu; unfold Image.ogl_texture_id in Hid; by rewrite Hid|].
    do 3 (split; [reflexivity|]).
    do 4 (split; [assumption|]).
    split; [discriminate|].
    split; [by intros ? [= <-]|].
    intros log'. by apply send_to_gpu_again.
  - rewrite (send_to_gpu_first env unpack img log Hid). cbn [snd].
    rewrite drop_app_length.
    split; [reflexivity|]. split; [reflexivity|]. split; [reflexivity|].
    do 3 (split; [reflexivity|]).
    do 4 (split; [assumption|]).
    split.
    { intros _. split; [unfold Image.on_gpu; unfold Image.ogl_texture_id in Hid; by rewrite Hid|].
      split; [reflexivity|]. split; [reflexivity|]. destruct unpack; reflexivity. }
    split; [discriminate|].
    intros log'. by apply send_to_gpu_again.
Qed.

Lemma send_to_gpu_idempotent_monotonic_witness :
  exists img1 log1,
    Image.send_to_gpu example_env true (Image.ctor 1 1) [] = (Returns img1, log1) /\
    Image.send_to_gpu example_env true img1 log1
    = (Returns img1,
       log1 ++ [glBindTexture GL_TEXTURE_2D 1;
                glTexImage2D GL_TEXTURE_2D 0 GL_RGBA 1 1 0 GL_RGBA GL_UNSIGNED_BYTE
                             [opaque_white]]) /\
    Image.ogl_texture_id img1 = Some 1.
Proof.
  destruct (send_to_gpu_idempotent_monotonic example_env true (Image.ctor 1 1) [])
    as (img1 & id & log1 & w & h & Hfirst & Hid & _ & Himg & _ & _ & Hw & _ & Hh & _
        & Hnone & _ & Hagain).
  cbn zeta in Hagain.
  destruct Hnone as (_ & Hname & _); [reflexivity|].
  rewrite (Hw ltac:(simpl; lia)), (Hh ltac:(simpl; lia)), Himg, Hname in Hagain.
  exists img1, log1. split; [exact Hfirst|]. split; [apply Hagain|].
  rewrite Hid, Hname. reflexivity.
Defined.

(** The handle survives whatever else is done to the image between two
    uploads. *)
Lemma send_to_gpu_keeps_handle env unpack img id log :
  Image.ogl_texture_id img = Some id ->
  exists log', Image.send_to_gpu env unpack img log = (Returns img, log')
               /\ textures_generated log' = textures_generated log.
Proof.
  intros Hid. eexists. split; [by apply send_to_gpu_again|].
  rewrite textures_generated_app. simpl. unfold textures_generated at 2. simpl. lia.
Qed.

Lemma delete_from_gpu_present img id log :
  Image.ogl_texture_id img = Some id ->
  Image.delete_from_gpu img log
  = (Returns (Image.with_texture img None), log ++ [glDeleteTextures 1 id]).
Proof. unfold Image.ogl_texture_id, Image.delete_from_gpu. intros ->. reflexivity. Qed.

Lemma delete_from_gpu_absent img log :
  Image.ogl_texture_id img = None ->
  Image.delete_from_gpu img log = (Returns img, log).
Proof. unfold Image.ogl_texture_id, Image.delete_from_gpu. intros ->. reflexivity. Qed.

(** C2. Release ([delete_from_gpu]) deletes the texture and clears the
    handle when there is one, and does nothing, without failing, when there
    is none, in particular on an image that was never uploaded; the
    destructor is this release, so whatever state the image is in when its
    lifetime ends, no handle remains, and an uploaded image has its texture
    deleted. *)
Theorem delete_from_gpu_releases
    (env : Env) (unpack : bool) (img : Image.t) (log : list call) :
  (forall id, Image.ogl_texture_id img = Some id ->
     Image.delete_from_gpu img log
     = (Returns (Image.with_texture img None), log ++ [glDeleteTextures 1 id]) /\
     Image.ogl_texture_id (Image.with_texture img None) = None) /\
  (Image.ogl_texture_id img = None ->
     Image.delete_from_gpu img log = (Returns img, log)) /\
  (forall height width,
     Image.delete_from_gpu (Image.ctor height width) log
     = (Returns (Image.ctor height width), log)) /\
  Image.dtor img log = Image.delete_from_gpu img log /\
  (exists img' log1,
     Image.dtor img log = (Returns img', log ++ log1) /\
     Image.on_gpu img' = false /\ Image.ogl_texture_id img' = None /\
     Image.image_ img' = Image.image_ img) /\
  (exists img1 img2 id log1 log2,
     Image.send_to_gpu env unpack img log = (Returns img1, log1) /\
     Image.ogl_texture_id img1 = Some id /\
     Image.dtor img1 log1 = (Returns img2, log2) /\
     Image.on_gpu img2 = false /\
     last log2 = Some (glDeleteTextures 1 id)).
Proof.
  split.
  { intros id Hid. split; [by apply delete_from_gpu_present | reflexivity]. }
  split; [apply delete_from_gpu_absent|].
  split; [intros height width; by apply delete_from_gpu_absent|].
  split; [reflexivity|].
  split.
  { unfold Image.dtor. destruct (Image.ogl_texture_id img) as [id|] eqn:Hid.
    - exists (Image.with_texture img None), [glDeleteTextures 1 id].
      split; [by apply delete_from_gpu_present|]. by repeat split.
    - exists img, []. rewrite app_nil_r.
      split; [by apply delete_from_gpu_absent|].
      unfold Image.on_gpu. unfold Image.ogl_texture_id in *. rewrite Hid. by repeat split. }
  destruct (send_to_gpu_leaves_handle env unpack img log)
    as (img1 & id & log1 & Hsend & Hid).
  exists img1, (Image.with_texture img1 None), id, (log ++ log1),
    ((log ++ log1) ++ [glDeleteTextures 1 id]).
  split; [exact Hsend|]. split; [exact Hid|].
  split; [unfold Image.dtor; by apply delete_from_gpu_present|].
  split; [reflexivity|]. apply last_snoc.
Qed.

Lemma delete_from_gpu_releases_witness :
  Image.delete_from_gpu (Image.mk 1 1 [opaque_white] (Some 5)) []
  = (Returns (Image.mk 1 1 [opaque_white] None), [glDeleteTextures 1 5]) /\
  Image.delete_from_gpu (Image.ctor 1 1) [] = (Returns (Image.ctor 1 1), []).
Proof.
  split.
  - destruct (delete_from_gpu_releases example_env true
                (Image.mk 1 1 [opaque_white] (Some 5)) []) as (Hpresent & _).
    destruct (Hpresent 5) as (Hdel & _); [reflexivity | exact Hdel].
  - destruct (delete_from_gpu_releases example_env true (Image.ctor 1 1) [])
      as (_ & Habsent & _).
    apply Habsent. reflexivity.
Defined.

(** ** The buffer length along the life of an image *)

Lemma assign_index_preserves img i p img' :
  Image.assign_index img i p = Returns img' ->
  Image.buffer_matches_size img -> Image.buffer_matches_size img'.
Proof.
  unfold Image.assign_index, Image.buffer_matches_size, Image.size.
  destruct (Vector.assign (Image.image_ img) i p) as [v| |] eqn:Hv; try discriminate.
  simpl. intros [= <-] Hinv. simpl.
  by rewrite (vector_assign_length _ _ _ _ Hv).
Qed.

Lemma assign_at_preserves img h w p img' :
  Image.assign_at img h w p = Returns img' ->
  Image.buffer_matches_size img -> Image.buffer_matches_size img'.
Proof.
  unfold Image.assign_at. destruct (Image.at_ img h w); try discriminate.
  simpl. apply assign_index_preserves.
Qed.

Lemma send_to_gpu_preserves env unpack img log img' log' :
  Image.send_to_gpu env unpack img log = (Returns img', log') ->
  Image.buffer_matches_size img -> Image.buffer_matches_size img'.
Proof.
  destruct (Image.ogl_texture_id img) as [id|] eqn:Hid.
  - rewrite (send_to_gpu_again _ _ _ _ _ Hid). by intros [= <- _].
  - rewrite (send_to_gpu_first _ _ _ _ Hid). by intros [= <- _].
Qed.

Lemma delete_from_gpu_preserves img log img' log' :
  Image.delete_from_gpu img log = (Returns img', log') ->
  Image.buffer_matches_size img -> Image.buffer_matches_size img'.
Proof.
  destruct (Image.ogl_texture_id img) as [id|] eqn:Hid.
  - rewrite (delete_from_gpu_present _ _ _ Hid). by intros [= <- _].
  - rewrite (delete_from_gpu_absent _ _ Hid). by intros [= <- _].
Qed.

Lemma apply_preserves env unpack o img log img' log' :
  Image.apply env unpack o img log = (Returns img', log') ->
  Image.buffer_matches_size img -> Image.buffer_matches_size img'.
Proof.
  destruct o as [height width|i p|h w p|h w p| |]; simpl.
  - intros [= <- _] _. apply resize_buffer_matches_size.
  - unfold lift. intros [= H _]. exact (assign_index_preserves _ _ _ _ H).
  - unfold lift, Image.assign_call. intros [= H _]. exact (assign_index_preserves _ _ _ _ H).
  - unfold lift. intros [= H _]. exact (assign_at_preserves _ _ _ _ _ H).
  - apply send_to_gpu_preserves.
  - apply delete_from_gpu_preserves.
Qed.

Lemma apply_all_preserves env unpack ops :
  forall img log img' log',
    Image.apply_all env unpack ops img log = (Returns img', log') ->
    Image.buffer_matches_size img -> Image.buffer_matches_size img'.
Proof.
  induction ops as [|o ops IH]; intros img log img' log'; simpl.
  - by intros [= <- _].
  - intros Hrun Hinv. apply bind_returns_inv in Hrun as (img1 & log1 & Hstep & Hrest).
    eapply IH; [exact Hrest|]. by eapply apply_preserves.
Qed.

Lemma copy_pixels_preserves bytes n :
  forall i img img',
    Image.copy_pixels bytes n i img = Returns img' ->
    Image.buffer_matches_size img -> Image.buffer_matches_size img'.
Proof.
  induction n as [|n IH]; intros i img img'; simpl.
  - by intros [= <-].
  - destruct (Image.pdata_index bytes i) as [p| |]; try discriminate. simpl.
    destruct (Image.assign_index img i p) as [img1| |] eqn:Hassign; try discriminate.
    simpl. intros Hrest Hinv. eapply IH; [exact Hrest|].
    by eapply assign_index_preserves.
Qed.

Lemma from_file_buffer_matches_size env fname log img log' :
  Image.from_file env fname log = (Returns img, log') ->
  Image.buffer_matches_size img.
Proof.
  unfold Image.from_file. run_M.
  destruct (fs_exists env log fname); simpl; [|discriminate].
  destruct (stbi_decode env _ fname) as [decoded|]; [|discriminate].
  destruct (Image.copy_pixels _ _ _ _) as [img1| |] eqn:Hcopy; try discriminate.
  intros [= <- _]. eapply copy_pixels_preserves; [exact Hcopy|].
  apply ctor_buffer_matches_size.
Qed.

Lemma construct_buffer_matches_size env o log img log' :
  construct env o log = (Returns img, log') -> Image.buffer_matches_size img.
Proof.
  destruct o as [height width|fname]; simpl.
  - intros [= <- _]. apply ctor_buffer_matches_size.
  - apply from_file_buffer_matches_size.
Qed.

Lemma lifetime_buffer_matches_size env unpack o ops log img log' :
  lifetime env unpack o ops log = (Returns img, log') ->
  Image.buffer_matches_size img.
Proof.
  intros Hlife. unfold lifetime in Hlife.
  apply bind_returns_inv in Hlife as (img0 & log0 & Hmade & Hops).
  eapply apply_all_preserves; [exact Hops|].
  by eapply construct_buffer_matches_size.
Qed.

(** C4, as the specification words it, fails: [Image(65536, 65536)] is
    built with an empty buffer, while the product of its dimensions is
    2^32. *)
Lemma buffer_length_counterexample :
  let img := Image.ctor 65536 65536 in
  lifetime example_env true (FromDimensions 65536 65536) [] [] = (Returns img, []) /\
  length (Image.image_ img) = 0%nat /\
  Z.of_nat (length (Image.image_ img)) <> Image.height img * Image.width img.
Proof. cbn zeta. split; [reflexivity|]. split; [reflexivity|]. simpl. lia. Qed.

(** C4 (amended). Along every sequence of operations on an image, however
    it was made (explicit dimensions or decoding a file, then resizes,
    pixel writes, uploads and releases), the pixel buffer length equals
    [size()], that is (height*width) mod 2^32; it equals height*width
    whenever that product is below 2^32. *)
Theorem buffer_length_is_size
    (env : Env) (unpack : bool) (o : origin) (ops : list Image.op)
    (log : list call) (img : Image.t) (log' : list call) :
  lifetime env unpack o ops log = (Returns img, log') ->
  Z.of_nat (length (Image.image_ img)) = Image.size img /\
  Z.of_nat (length (Image.image_ img)) = (Image.height img * Image.width img) mod 2 ^ 32 /\
  (0 <= Image.height img * Image.width img < 2 ^ 32 ->
     Z.of_nat (length (Image.image_ img)) = Image.height img * Image.width img).
Proof.
  intros Hlife.
  pose proof (lifetime_buffer_matches_size _ _ _ _ _ _ _ Hlife) as Hinv.
  unfold Image.buffer_matches_size in Hinv.
  pose proof (wrap32_range (Image.width_ img * Image.height_ img)) as Hr.
  assert (Hsize : Z.of_nat (length (Image.image_ img)) = Image.size img).
  { rewrite Hinv. unfold U32.to_size_t, Image.size, U32.mul, U32.in_range in *. lia. }
  split; [exact Hsize|]. rewrite Hsize.
  unfold Image.size, Image.height, Image.width.
  rewrite mul_comm. unfold U32.mul, U32.wrap32, U32.modulus.
  split; [reflexivity|]. intros Hfit. by apply Z.mod_small.
Qed.

Lemma buffer_length_is_size_witness :
  match lifetime example_env true (FromFile "icon.png")
          [Image.Resize 3 2; Image.AssignAt 2 1 (mkPixel 0 0 0 255); Image.SendToGpu] []
  with
  | (Returns img, _) =>
      Z.of_nat (length (Image.image_ img)) = 6 /\
      Z.of_nat (length (Image.image_ img)) = Image.height img * Image.width img
  | _ => False
  end.
Proof.
  destruct (lifetime example_env true (FromFile "icon.png")
              [Image.Resize 3 2; Image.AssignAt 2 1 (mkPixel 0 0 0 255); Image.SendToGpu] [])
    as [[img| |] log'] eqn:Hlife.
  - pose proof (buffer_length_is_size _ _ _ _ _ _ _ Hlife) as (_ & _ & Hfit).
    vm_compute in Hlife. injection Hlife as <- <-.
    split; [reflexivity|]. apply Hfit. simpl. lia.
  - vm_compute in Hlife. discriminate Hlife.
  - vm_compute in Hlife. discriminate Hlife.
Defined.

(** ** Checked access *)

Lemma at_row_out_of_range img h w :
  Image.height img <= h ->
  Image.at_ img h w = Throws (out_of_range "ImApp::Image::at: h must be < height.").
Proof.
  intros Hh. unfold Image.at_, Image.height in *.
  destruct (Z.geb_spec h (Image.height_ img)); [reflexivity | lia].
Qed.

Lemma at_column_out_of_range img h w :
  h < Image.height img -> Image.width img <= w ->
  Image.at_ img h w = Throws (out_of_range "ImApp::Image::at: w must be < width.").
Proof.
  intros Hh Hw. unfold Image.at_, Image.height, Image.width in *.
  destruct (Z.geb_spec h (Image.height_ img)); [lia|].
  destruct (Z.geb_spec w (Image.width_ img)); [reflexivity | lia].
Qed.

Lemma at_in_range img h w :
  Image.buffer_matches_size img ->
  U32.in_range (Image.height img * Image.width img) ->
  0 <= h < Image.height img -> 0 <= w < Image.width img ->
  exists p, Image.at_ img h w = Returns p /\
            Image.image_ img !! Z.to_nat (w + h * Image.width img) = Some p.
Proof.
  intros Hinv Hfit Hrow Hcol. unfold Image.height, Image.width in *.
  unfold Image.at_.
  destruct (Z.geb_spec h (Image.height_ img)); [lia|].
  destruct (Z.geb_spec w (Image.width_ img)); [lia|].
  unfold Image.linear_index.
  rewrite (linear_index_exact h w (Image.height_ img) (Image.width_ img)) by done.
  apply vector_index_in_range.
  rewrite Hinv. unfold Image.size, U32.to_size_t.
  rewrite mul_comm, mul_exact by exact Hfit.
  pose proof (linear_index_bound h w (Image.height_ img) (Image.width_ img)). lia.
Qed.

(** C5, as the specification words it, fails: [Image(65536, 65536)] has
    height and width 65536 but, the 32-bit product being 0, no pixel at all;
    row 0, column 0 passes both checks of [at] and then indexes the empty
    vector. *)
Lemma at_valid_coordinates_counterexample :
  let img := Image.ctor 65536 65536 in
  lifetime example_env true (FromDimensions 65536 65536) [] [] = (Returns img, []) /\
  0 < Image.height img /\ 0 < Image.width img /\
  Image.image_ img = [] /\
  Image.at_ img 0 0 = Undefined /\
  ~ (exists p, Image.at_ img 0 0 = Returns p).
Proof.
  cbn zeta. repeat split; try reflexivity.
  intros [p Hp]. discriminate Hp.
Qed.

(** C5 (amended). For every image a program can hold, [at(row, column)]
    fails with [std::out_of_range] whenever row >= height or
    column >= width; and when the image's height*width is below 2^32 (so
    that the 32-bit pixel count is the product), it never fails for valid
    coordinates (row < height and column < width) and returns the pixel at
    linear index column + row*width. *)
Theorem at_bounds_checked
    (env : Env) (unpack : bool) (o : origin) (ops : list Image.op)
    (log : list call) (img : Image.t) (log' : list call) (h w : Z) :
  lifetime env unpack o ops log = (Returns img, log') ->
  U32.in_range h -> U32.in_range w ->
  ((Image.height img <= h \/ Image.width img <= w) ->
     exists msg, Image.at_ img h w = Throws (out_of_range msg)) /\
  (Image.height img * Image.width img < 2 ^ 32 ->
   h < Image.height img -> w < Image.width img ->
     exists p, Image.at_ img h w = Returns p /\
               Image.image_ img !! Z.to_nat (w + h * Image.width img) = Some p).
Proof.
  intros Hlife Hh Hw. unfold U32.in_range in Hh, Hw. split.
  - intros Hout. destruct (Z.le_gt_cases (Image.height img) h) as [Hrow|Hrow].
    + eexists. by apply at_row_out_of_range.
    + destruct Hout as [Hout|Hout]; [lia|].
      eexists. apply at_column_out_of_range; [lia|done].
  - intros Hfit Hrow Hcol. apply at_in_range; [|unfold U32.in_range, U32.modulus; nia|lia..].
    by eapply lifetime_buffer_matches_size.
Qed.

Lemma at_bounds_checked_witness :
  (exists msg, Image.at_ (Image.ctor 2 3) 1 3 = Throws (out_of_range msg)) /\
  (exists p, Image.at_ (Image.ctor 2 3) 1 2 = Returns p /\
             Image.image_ (Image.ctor 2 3) !! Z.to_nat (2 + 1 * 3) = Some p).
Proof.
  assert (Hlife : lifetime example_env true (FromDimensions 2 3) [] []
                  = (Returns (Image.ctor 2 3), [])) by reflexivity.
  split.
  - apply (at_bounds_checked _ _ _ _ _ _ _ 1 3 Hlife);
      [unfold U32.in_range, U32.modulus; lia .. | right; simpl; lia].
  - apply (at_bounds_checked _ _ _ _ _ _ _ 1 2 Hlife);
      [unfold U32.in_range, U32.modulus; lia .. | simpl; lia | simpl; lia | simpl; lia].
Defined.

(** ** Decoding a file *)

Lemma from_file_missing env fname log :
  fs_exists env log fname = false ->
  Image.from_file env fname log
  = (Throws (runtime_error (Image.not_found_message fname)),
     log ++ [std_filesystem_exists fname false]).
Proof. intros H. unfold Image.from_file. run_M. by rewrite H. Qed.

Lemma from_file_undecodable env fname log :
  fs_exists env log fname = true ->
  stbi_decode env (log ++ [std_filesystem_exists fname true]) fname = None ->
  Image.from_file env fname log
  = (Throws (runtime_error
               (Image.decode_failure_message
                  (stbi_reason env (log ++ [std_filesystem_exists fname true;
                                            stbi_load fname 4 None])))),
     log ++ [std_filesystem_exists fname true; stbi_load fname 4 None;
             stbi_failure_reason
               (stbi_reason env (log ++ [std_filesystem_exists fname true;
                                         stbi_load fname 4 None]))]).
Proof.
  intros Hex Hdec. unfold Image.from_file. run_M. rewrite Hex. simpl.
  rewrite Hdec. rewrite <- !app_assoc. reflexivity.
Qed.

Lemma string_append_assoc (a b c : string) : (a +:+ b) +:+ c = a +:+ (b +:+ c).
Proof.
  induction a as [|ch a IH]; [reflexivity|].
  change (String ch ((a +:+ b) +:+ c) = String ch (a +:+ (b +:+ c))).
  by rewrite IH.
Qed.

(** The two failures cannot be mistaken for one another: their messages
    differ whatever the file name and the decoder's reason. *)
Lemma failure_messages_differ fname reason :
  Image.not_found_message fname <> Image.decode_failure_message reason.
Proof.
  unfold Image.not_found_message, Image.decode_failure_message.
  cbn [String.append]. discriminate.
Qed.

(** C6. Decoding ([from_file]) a path that does not name an existing file
    fails with the not-found error, raised right after the existence check:
    no call to the codec is made.  When the file exists and [stbi_load]
    cannot decode it, decoding fails with the decode-failure error, whose
    message carries the text of [stbi_failure_reason]. *)
Theorem from_file_failure_conditions (env : Env) (fname : string) (log : list call) :
  (fs_exists env log fname = false ->
     Image.from_file env fname log
     = (Throws (runtime_error (Image.not_found_message fname)),
        log ++ [std_filesystem_exists fname false]) /\
     Forall (fun c => is_codec_call c = false) (emitted (Image.from_file env fname) log)) /\
  (fs_exists env log fname = true ->
   stbi_decode env (log ++ [std_filesystem_exists fname true]) fname = None ->
     exists reason,
       reason = stbi_reason env (log ++ [std_filesystem_exists fname true;
                                         stbi_load fname 4 None]) /\
       Image.from_file env fname log
       = (Throws (runtime_error (Image.decode_failure_message reason)),
          log ++ [std_filesystem_exists fname true; stbi_load fname 4 None;
                  stbi_failure_reason reason]) /\
       (exists before after,
          Image.decode_failure_message reason = before +:+ reason +:+ after) /\
       Image.decode_failure_message reason <> Image.not_found_message fname).
Proof.
  split.
  - intros Hmissing. pose proof (from_file_missing env fname log Hmissing) as Hrun.
    split; [exact Hrun|].
    rewrite (emitted_app _ _ _ _ Hrun). repeat constructor.
  - intros Hex Hdec. eexists. split; [reflexivity|].
    split; [by apply from_file_undecodable|]. split.
    + eexists _, Image.newline. unfold Image.decode_failure_message.
      apply string_append_assoc.
    + intros Heq. symmetry in Heq. by apply failure_messages_differ in Heq.
Qed.

Lemma from_file_failure_conditions_witness :
  Image.from_file example_env "missing.png" []
  = (Throws (runtime_error (Image.not_found_message "missing.png")),
     [std_filesystem_exists "missing.png" false]).
Proof.
  destruct (from_file_failure_conditions example_env "missing.png" []) as (Hmissing & _).
  destruct Hmissing as (Hrun & _); [reflexivity | exact Hrun].
Defined.

(** ** The layer stack *)

Lemma back_snoc v l : App.back (v ++ [l]) = Returns l.
Proof. unfold App.back. by rewrite last_snoc. Qed.

Lemma update_back_snoc f v l : App.update_back f (v ++ [l]) = v ++ [f l].
Proof.
  unfold App.update_back. rewrite length_app. simpl.
  replace (length v + 1 - 1)%nat with (length v + 0)%nat by lia.
  by rewrite alter_app_r.
Qed.

Lemma push_layer_returns app layer log :
  App.push_layer app layer log
  = (Returns (App.with_layers app
                (App.layers_ app ++ [Layer.set_app_ptr (Some (App.this_ app)) layer])),
     log ++ [Layer_on_push layer]).
Proof.
  unfold App.push_layer. simpl. rewrite back_snoc, update_back_snoc.
  run_M. reflexivity.
Qed.

Lemma push_layers_returns layers :
  forall app log,
    App.push_layers app layers log
    = (Returns (App.with_layers app
                  (App.layers_ app
                   ++ map (Layer.set_app_ptr (Some (App.this_ app))) layers)),
       log ++ map Layer_on_push layers).
Proof.
  induction layers as [|l layers IH]; intros app log; simpl.
  - rewrite !app_nil_r. by destruct app.
  - rewrite (bind_returns _ _ _ _ _ (push_layer_returns app l log)).
    rewrite IH. simpl. unfold App.with_layers. simpl.
    by rewrite <- !app_assoc.
Qed.



(** ** Frames and teardown *)

Lemma frame_returns env flag app log :
  App.frame env flag app log
  = (Returns tt,
     log ++ frame_calls
              (App.has_flag
                 (ConfigFlags_now env (log ++ frame_until_flags (App.layers_ app))
                                  (App.ConfigFlags app)) flag)
              (App.layers_ app)).
Proof.
  unfold App.frame, App.render_layers.
  rewrite (bind_returns _ _ log tt (log ++ [glfwPollEvents])) by reflexivity.
  rewrite (bind_returns _ _ _ tt ((log ++ [glfwPollEvents]) ++ [ImGui_ImplOpenGL3_NewFrame]))
    by reflexivity.
  rewrite (bind_returns _ _ _ tt
             (((log ++ [glfwPollEvents]) ++ [ImGui_ImplOpenGL3_NewFrame])
              ++ [ImGui_ImplGlfw_NewFrame])) by reflexivity.
  rewrite (bind_returns _ _ _ tt
             ((((log ++ [glfwPollEvents]) ++ [ImGui_ImplOpenGL3_NewFrame])
               ++ [ImGui_ImplGlfw_NewFrame]) ++ [ImGui_NewFrame])) by reflexivity.
  rewrite (bind_returns _ _ _ _ _ (for_each_emit Layer_render (App.layers_ app) _)).
  unfold App.read_ConfigFlags. run_M.
  unfold frame_calls, frame_until_flags, frame_begin, frame_end.
  rewrite <- ?app_assoc. cbn [Datatypes.app].
  destruct (App.has_flag _ flag);
    repeat (progress (rewrite <- ?app_assoc; cbn [Datatypes.app])); reflexivity.
Qed.

(** What the loop does, in full: it ran the frames [vps] (one entry per
    frame, telling whether the frame handled the platform windows); every
    frame follows a look at the window that found it open; the flags of each
    frame are those found after its layers were rendered; and the loop
    stopped at the first look that found the window closed, or else used
    all its iterations. *)
Lemma main_loop_runs env flag app fuel :
  forall log, exists (vps : list bool) (left_loop : bool),
    App.main_loop env flag fuel app log
    = (Returns left_loop,
       log ++ concat (map (looked_frame (App.layers_ app)) vps) ++ run_closing left_loop) /\
    (forall (i : nat) (vp : bool), vps !! i = Some vp ->
       window_should_close env
         (log ++ concat (map (looked_frame (App.layers_ app)) (take i vps))) = false /\
       vp = App.has_flag
              (ConfigFlags_now env
                 (log ++ concat (map (looked_frame (App.layers_ app)) (take i vps))
                      ++ glfwWindowShouldClose false :: frame_until_flags (App.layers_ app))
                 (App.ConfigFlags app)) flag) /\
    (if left_loop
     then window_should_close env
            (log ++ concat (map (looked_frame (App.layers_ app)) vps)) = true
     else length vps = fuel).
Proof.
  induction fuel as [|fuel IH]; intros log.
  - exists [], false. simpl. rewrite app_nil_r. split; [reflexivity|].
    split; [intros i vp Hi; discriminate Hi | reflexivity].
  - cbn [App.main_loop]. destruct (window_should_close env log) eqn:Hclose.
    + exists [], true. split; [run_M; by rewrite Hclose|].
      split; [intros i vp Hi; discriminate Hi|]. simpl. by rewrite app_nil_r.
    + rewrite (bind_returns _ _ log false (log ++ [glfwWindowShouldClose false]))
        by (unfold ask; by rewrite Hclose).
      cbv iota. rewrite (bind_returns _ _ _ _ _ (frame_returns env flag app _)).
      set (vp0 := App.has_flag
                    (ConfigFlags_now env
                       ((log ++ [glfwWindowShouldClose false])
                        ++ frame_until_flags (App.layers_ app)) (App.ConfigFlags app)) flag).
      assert (Hstep : (log ++ [glfwWindowShouldClose false])
                      ++ frame_calls vp0 (App.layers_ app)
                      = log ++ looked_frame (App.layers_ app) vp0).
      { unfold looked_frame. by rewrite <- app_assoc. }
      rewrite Hstep.
      destruct (IH (log ++ looked_frame (App.layers_ app) vp0))
        as (vps & left_loop & Hrun & Hframes & Hend).
      exists (vp0 :: vps), left_loop. rewrite Hrun. cbn [map concat].
      split; [by rewrite <- !app_assoc|]. split.
      * intros [|i] vp Hi.
        -- injection Hi as <-. cbn [take map concat]. rewrite app_nil_r.
           split; [exact Hclose|]. subst vp0. simpl. by rewrite <- app_assoc.
        -- cbn [take map concat]. destruct (Hframes i vp Hi) as (Hopen & Hvp).
           rewrite <- !app_assoc in Hopen, Hvp.
           rewrite <- ?app_assoc. split; [exact Hopen | exact Hvp].
      * destruct left_loop.
        -- by rewrite <- app_assoc in Hend.
        -- simpl. by rewrite Hend.
Qed.

Lemma run_runs env flag fuel app log :
  exists (styled : bool) (vps : list bool) (left_loop : bool),
    App.run env flag fuel app log
    = (Returns left_loop,
       log ++ run_prelude styled
           ++ concat (map (looked_frame (App.layers_ app)) vps) ++ run_closing left_loop) /\
    styled = App.has_flag (ConfigFlags_now env log (App.ConfigFlags app)) flag /\
    (forall (i : nat) (vp : bool), vps !! i = Some vp ->
       window_should_close env
         (log ++ run_prelude styled
              ++ concat (map (looked_frame (App.layers_ app)) (take i vps))) = false /\
       vp = App.has_flag
              (ConfigFlags_now env
                 (log ++ run_prelude styled
                      ++ concat (map (looked_frame (App.layers_ app)) (take i vps))
                      ++ glfwWindowShouldClose false :: frame_until_flags (App.layers_ app))
                 (App.ConfigFlags app)) flag) /\
    (if left_loop
     then window_should_close env
            (log ++ run_prelude styled
                 ++ concat (map (looked_frame (App.layers_ app)) vps)) = true
     else length vps = fuel).
Proof.
  set (styled := App.has_flag (ConfigFlags_now env log (App.ConfigFlags app)) flag).
  assert (Hstart : App.run env flag fuel app log
                   = App.main_loop env flag fuel app (log ++ run_prelude styled)).
  { unfold App.run, App.read_ConfigFlags. run_M. fold styled.
    destruct styled; simpl; rewrite <- ?app_assoc, ?app_nil_r;
      by destruct (App.main_loop env flag fuel app _) as [[?| |] ?]. }
  rewrite Hstart.
  destruct (main_loop_runs env flag app fuel (log ++ run_prelude styled))
    as (vps & left_loop & Hrun & Hframes & Hend).
  exists styled, vps, left_loop. rewrite Hrun.
  split; [by rewrite <- !app_assoc|]. split; [reflexivity|]. split.
  - intros i vp Hi. destruct (Hframes i vp Hi) as (Hopen & Hvp).
    rewrite <- !app_assoc in Hopen, Hvp. by split.
  - destruct left_loop; [by rewrite <- app_assoc in Hend | exact Hend].
Qed.

Lemma dtor_returns app log :
  App.dtor app log
  = (Returns tt, log ++ map Layer_on_kill (App.layers_ app) ++ teardown_calls).
Proof.
  unfold App.dtor, App.kill_layers.
  rewrite (bind_returns _ _ _ _ _ (for_each_emit Layer_on_kill (App.layers_ app) _)).
  run_M. unfold teardown_calls. rewrite <- !app_assoc. reflexivity.
Qed.

Lemma precedes_in_stack (hook : Layer.t -> call) (before after : list call)
    (stack : list Layer.t) (A B : Layer.t) :
  precedes (hook A) (hook B) (before ++ map hook (stack ++ [A; B]) ++ after).
Proof.
  exists (before ++ map hook stack), [], after.
  rewrite map_app. simpl. by rewrite <- !app_assoc.
Qed.

Lemma precedes_teardown (before : list call) (c d : call) :
  d ∈ teardown_calls -> precedes c d (before ++ [c] ++ teardown_calls).
Proof.
  intros Hd. apply list_elem_of_split in Hd as (t1 & t2 & Hsplit).
  exists before, t1, t2. rewrite Hsplit. reflexivity.
Qed.

(** C8. Hooks are dispatched in push order.  After layers A and B have
    been pushed in that order, [run] is exactly this: an optional style
    adjustment, then one frame per look at the window that found it open,
    each frame calling the render hooks of the layers in stack order, A's
    strictly before B's, and finally the look that found the window
    closed (the loop goes on as long as the window is open).  The
    destructor of the App calls [on_kill] on the layers in stack order, on
    A and then on B, and only then destroys the GUI contexts and the native
    window. *)
Theorem hooks_run_in_push_order
    (env : Env) (flag : Z) (app0 : App.t) (A B : Layer.t) (fuel : nat) (log : list call) :
  exists (app : App.t) (A' B' : Layer.t),
    App.push_layers app0 [A; B] log
    = (Returns app, log ++ [Layer_on_push A; Layer_on_push B]) /\
    App.layers_ app = App.layers_ app0 ++ [A'; B'] /\
    Layer.id A' = Layer.id A /\ Layer.id B' = Layer.id B /\
    (forall l, exists (styled : bool) (vps : list bool) (left_loop : bool),
       let frame := fun viewports : bool =>
         [glfwWindowShouldClose false;
          glfwPollEvents; ImGui_ImplOpenGL3_NewFrame; ImGui_ImplGlfw_NewFrame; ImGui_NewFrame]
         ++ map Layer_render (App.layers_ app0) ++ [Layer_render A'; Layer_render B']
         ++ [ImGui_Render; glfwGetFramebufferSize; glViewport; glClearColor;
             glClear GL_COLOR_BUFFER_BIT; ImGui_ImplOpenGL3_RenderDrawData]
         ++ (if viewports
             then [glfwGetCurrentContext; ImGui_UpdatePlatformWindows;
                   ImGui_RenderPlatformWindowsDefault; glfwMakeContextCurrent]
             else [])
         ++ [glfwSwapBuffers] in
       let prelude :=
         if styled then [style_WindowRounding_assign; style_Colors_WindowBg_w_assign]
         else [] in
       App.run env flag fuel app l
       = (Returns left_loop,
          l ++ prelude ++ concat (map frame vps)
            ++ (if left_loop then [glfwWindowShouldClose true] else [])) /\
       (forall i : nat, (i < length vps)%nat ->
          window_should_close env (l ++ prelude ++ concat (map frame (take i vps))) = false) /\
       (if left_loop
        then window_should_close env (l ++ prelude ++ concat (map frame vps)) = true
        else length vps = fuel) /\
       (forall viewports : bool,
          precedes (Layer_render A') (Layer_render B') (frame viewports))) /\
    (forall l,
       App.dtor app l
       = (Returns tt,
          l ++ map Layer_on_kill (App.layers_ app0)
            ++ [Layer_on_kill A'; Layer_on_kill B']
            ++ [ImGui_ImplOpenGL3_Shutdown; ImGui_ImplGlfw_Shutdown; ImPlot_DestroyContext;
                ImGui_DestroyContext; glfwDestroyWindow; glfwTerminate])) /\
    precedes (Layer_on_kill A') (Layer_on_kill B') (emitted (App.dtor app) []) /\
    (forall c, c ∈ teardown_calls ->
       precedes (Layer_on_kill B') c (emitted (App.dtor app) [])).
Proof.
  set (bind := Layer.set_app_ptr (Some (App.this_ app0))).
  set (app := App.with_layers app0 (App.layers_ app0 ++ map bind [A; B])).
  assert (Hdtor : forall l,
             App.dtor app l
             = (Returns tt,
                l ++ map Layer_on_kill (App.layers_ app0)
                  ++ [Layer_on_kill (bind A); Layer_on_kill (bind B)] ++ teardown_calls)).
  { intros l. rewrite dtor_returns. subst app. simpl.
    rewrite map_app. simpl. by rewrite <- !app_assoc. }
  assert (Hemitted : emitted (App.dtor app) []
                     = map Layer_on_kill (App.layers_ app0)
                       ++ [Layer_on_kill (bind A); Layer_on_kill (bind B)] ++ teardown_calls).
  { eapply emitted_app. rewrite Hdtor. reflexivity. }
  exists app, (bind A), (bind B).
  split; [apply push_layers_returns|].
  split; [reflexivity|]. split; [reflexivity|]. split; [reflexivity|].
  split.
  { intros l. destruct (run_runs env flag fuel app l)
      as (styled & vps & left_loop & Hrun & _ & Hframes & Hend).
    exists styled, vps, left_loop. cbn zeta.
    assert (Hframe : forall vp,
               looked_frame (App.layers_ app) vp
               = [glfwWindowShouldClose false; glfwPollEvents; ImGui_ImplOpenGL3_NewFrame;
                  ImGui_ImplGlfw_NewFrame; ImGui_NewFrame]
                 ++ map Layer_render (App.layers_ app0)
                 ++ [Layer_render (bind A); Layer_render (bind B)]
                 ++ [ImGui_Render; glfwGetFramebufferSize; glViewport; glClearColor;
                     glClear GL_COLOR_BUFFER_BIT; ImGui_ImplOpenGL3_RenderDrawData]
                 ++ (if vp
                     then [glfwGetCurrentContext; ImGui_UpdatePlatformWindows;
                           ImGui_RenderPlatformWindowsDefault; glfwMakeContextCurrent]
                     else [])
                 ++ [glfwSwapBuffers]).
    { intros vp. unfold looked_frame, frame_calls, frame_begin, frame_end. subst app.
      simpl App.layers_. rewrite map_app. simpl. by rewrite <- !app_assoc. }
    assert (Hmap : forall vs : list bool,
               map (looked_frame (App.layers_ app)) vs
               = map (fun vp : bool =>
                   [glfwWindowShouldClose false; glfwPollEvents; ImGui_ImplOpenGL3_NewFrame;
                    ImGui_ImplGlfw_NewFrame; ImGui_NewFrame]
                   ++ map Layer_render (App.layers_ app0)
                   ++ [Layer_render (bind A); Layer_render (bind B)]
                   ++ [ImGui_Render; glfwGetFramebufferSize; glViewport; glClearColor;
                       glClear GL_COLOR_BUFFER_BIT; ImGui_ImplOpenGL3_RenderDrawData]
                   ++ (if vp
                       then [glfwGetCurrentContext; ImGui_UpdatePlatformWindows;
                             ImGui_RenderPlatformWindowsDefault; glfwMakeContextCurrent]
                       else [])
                   ++ [glfwSwapBuffers]) vs).
    { intros vs. apply map_ext. exact Hframe. }
    rewrite !Hmap in Hrun, Hend.
    split; [exact Hrun|]. split.
    - intros i Hi. destruct (lookup_lt_is_Some_2 vps i Hi) as [vp Hvp].
      destruct (Hframes i vp Hvp) as (Hopen & _). by rewrite Hmap in Hopen.
    - split; [exact Hend|]. intros vp.
      exists ([glfwWindowShouldClose false; glfwPollEvents; ImGui_ImplOpenGL3_NewFrame;
               ImGui_ImplGlfw_NewFrame; ImGui_NewFrame] ++ map Layer_render (App.layers_ app0)),
        [], ([ImGui_Render; glfwGetFramebufferSize; glViewport; glClearColor;
              glClear GL_COLOR_BUFFER_BIT; ImGui_ImplOpenGL3_RenderDrawData]
             ++ (if vp
                 then [glfwGetCurrentContext; ImGui_UpdatePlatformWindows;
                       ImGui_RenderPlatformWindowsDefault; glfwMakeContextCurrent]
                 else [])
             ++ [glfwSwapBuffers]).
      rewrite <- !app_assoc. reflexivity. }
  split; [exact Hdtor|].
  rewrite Hemitted. split.
  - exists (map Layer_on_kill (App.layers_ app0)), [], teardown_calls. reflexivity.
  - intros c Hc.
    replace (map Layer_on_kill (App.layers_ app0)
             ++ [Layer_on_kill (bind A); Layer_on_kill (bind B)] ++ teardown_calls)
      with ((map Layer_on_kill (App.layers_ app0) ++ [Layer_on_kill (bind A)])
            ++ [Layer_on_kill (bind B)] ++ teardown_calls)
      by (rewrite <- !app_assoc; reflexivity).
    by apply precedes_teardown.
Qed.

(** Two layers on a fresh App, the window closed at the third look: two
    frames, each rendering layer 1 and then layer 2. *)
Example two_layers_two_frames :
  snd ((app ← App.push_layers (App.mk 7 0 []) [Layer.ctor 1; Layer.ctor 2];
        App.run example_env 1024 5 app) [])
  = [Layer_on_push (Layer.mk 1 None); Layer_on_push (Layer.mk 2 None)]
    ++ glfwWindowShouldClose false
       :: frame_calls false [Layer.mk 1 (Some 7%nat); Layer.mk 2 (Some 7%nat)]
    ++ glfwWindowShouldClose false
       :: frame_calls false [Layer.mk 1 (Some 7%nat); Layer.mk 2 (Some 7%nat)]
    ++ [glfwWindowShouldClose true].
Proof. vm_compute. reflexivity. Qed.

(** * Further properties *)

(** ** Coordinates and cells *)

Lemma linear_index_valid img h w :
  U32.in_range (Image.height img * Image.width img) ->
  0 <= h < Image.height img -> 0 <= w < Image.width img ->
  Image.linear_index img h w = Z.to_nat (w + h * Image.width img).
Proof.
  intros Hfit Hh Hw. unfold Image.linear_index, U32.to_size_t, Image.height, Image.width in *.
  by rewrite (linear_index_exact h w (Image.height_ img) (Image.width_ img)).
Qed.

Lemma grid_index_injective h w h' w' W :
  0 <= w < W -> 0 <= w' < W -> 0 <= h -> 0 <= h' ->
  w + h * W = w' + h' * W -> h = h' /\ w = w'.
Proof.
  intros Hw Hw' Hh Hh' Heq.
  assert (h = h') as ->.
  { destruct (Z.lt_trichotomy h h') as [Hlt|[Heq'|Hgt]]; [|exact Heq'|].
    - assert ((h + 1) * W <= h' * W) by (apply Z.mul_le_mono_nonneg_r; lia). lia.
    - assert ((h' + 1) * W <= h * W) by (apply Z.mul_le_mono_nonneg_r; lia). lia. }
  split; [reflexivity | lia].
Qed.

Lemma linear_index_injective img h w h' w' :
  U32.in_range (Image.height img * Image.width img) ->
  0 <= h < Image.height img -> 0 <= w < Image.width img ->
  0 <= h' < Image.height img -> 0 <= w' < Image.width img ->
  Image.linear_index img h w = Image.linear_index img h' w' -> h = h' /\ w = w'.
Proof.
  intros Hfit Hh Hw Hh' Hw' Heq.
  rewrite !linear_index_valid in Heq by done.
  apply (grid_index_injective h w h' w' (Image.width img)); try lia.
  pose proof (linear_index_bound h w _ _ Hh Hw).
  pose proof (linear_index_bound h' w' _ _ Hh' Hw'). lia.
Qed.

Lemma linear_index_in_buffer img h w :
  Image.buffer_matches_size img ->
  U32.in_range (Image.height img * Image.width img) ->
  0 <= h < Image.height img -> 0 <= w < Image.width img ->
  (Image.linear_index img h w < length (Image.image_ img))%nat.
Proof.
  intros Hinv Hfit Hh Hw. rewrite linear_index_valid by done.
  rewrite Hinv. unfold Image.size, U32.to_size_t, Image.height, Image.width in *.
  rewrite mul_comm, mul_exact by exact Hfit.
  pose proof (linear_index_bound h w _ _ Hh Hw). lia.
Qed.

Lemma at_is_op_call img h w :
  h < Image.height img -> w < Image.width img ->
  Image.at_ img h w = Image.op_call img h w.
Proof.
  intros Hh Hw. unfold Image.at_, Image.op_call, Image.height, Image.width in *.
  destruct (Z.geb_spec h (Image.height_ img)); [lia|].
  destruct (Z.geb_spec w (Image.width_ img)); [lia|]. reflexivity.
Qed.

(** X1. A pixel written through [at(h, w)] is the pixel read back at (h, w),
    every other valid coordinate keeps its pixel, and neither the
    dimensions nor the GPU handle change; [img(h, w) = p] stores into the
    same cell.  This holds for an image a program can hold whose
    height*width is below 2^32. *)
Theorem pixel_write_then_read
    (env : Env) (unpack : bool) (o : origin) (ops : list Image.op)
    (log : list call) (img : Image.t) (log' : list call) (h w : Z) (p : Pixel) :
  lifetime env unpack o ops log = (Returns img, log') ->
  Image.height img * Image.width img < 2 ^ 32 ->
  0 <= h < Image.height img -> 0 <= w < Image.width img ->
  exists img',
    Image.assign_at img h w p = Returns img' /\
    Image.assign_call img h w p = Returns img' /\
    Image.at_ img' h w = Returns p /\
    Image.op_call img' h w = Returns p /\
    (forall h' w',
       0 <= h' < Image.height img -> 0 <= w' < Image.width img ->
       (h', w') <> (h, w) -> Image.at_ img' h' w' = Image.at_ img h' w') /\
    Image.height img' = Image.height img /\ Image.width img' = Image.width img /\
    length (Image.image_ img') = length (Image.image_ img) /\
    Image.ogl_texture_id img' = Image.ogl_texture_id img.
Proof.
  intros Hlife Hsmall Hh Hw.
  pose proof (lifetime_buffer_matches_size _ _ _ _ _ _ _ Hlife) as Hinv.
  assert (Hfit : U32.in_range (Image.height img * Image.width img))
    by (unfold U32.in_range, U32.modulus; nia).
  pose proof (linear_index_in_buffer img h w Hinv Hfit Hh Hw) as Hin.
  destruct (lookup_lt_is_Some_2 _ _ Hin) as [p0 Hp0].
  set (i := Image.linear_index img h w) in *.
  exists (Image.with_image img (<[i := p]> (Image.image_ img))).
  assert (Hcall : Image.assign_call img h w p
                  = Returns (Image.with_image img (<[i := p]> (Image.image_ img)))).
  { unfold Image.assign_call, Image.assign_index, Vector.assign. fold i. by rewrite Hp0. }
  assert (Hread : Image.op_call (Image.with_image img (<[i := p]> (Image.image_ img))) h w
                  = Returns p).
  { unfold Image.op_call, Vector.index. change (Image.linear_index _ h w) with i.
    simpl. by rewrite list_lookup_insert_eq. }
  split.
  { unfold Image.assign_at. rewrite at_is_op_call by lia.
    unfold Image.op_call, Vector.index. fold i. rewrite Hp0. exact Hcall. }
  split; [exact Hcall|].
  split; [rewrite at_is_op_call by (unfold Image.height, Image.width in *; simpl; lia); exact Hread|].
  split; [exact Hread|].
  split.
  { intros h' w' Hh' Hw' Hne.
    rewrite !at_is_op_call by (unfold Image.height, Image.width in *; simpl; lia).
    unfold Image.op_call, Vector.index.
    change (Image.linear_index (Image.with_image _ _) h' w')
      with (Image.linear_index img h' w').
    simpl. rewrite list_lookup_insert_ne; [reflexivity|].
    intros Heq. apply Hne.
    destruct (linear_index_injective img h w h' w' Hfit Hh Hw Hh' Hw' Heq) as [-> ->].
    reflexivity. }
  repeat split. simpl. apply length_insert.
Qed.

Lemma pixel_write_then_read_witness :
  exists img',
    Image.assign_at (Image.ctor 2 3) 1 2 (mkPixel 1 2 3 4) = Returns img' /\
    Image.at_ img' 1 2 = Returns (mkPixel 1 2 3 4).
Proof.
  destruct (pixel_write_then_read example_env true (FromDimensions 2 3) [] []
              (Image.ctor 2 3) [] 1 2 (mkPixel 1 2 3 4))
    as (img' & Hwrite & _ & Hread & _); try (simpl; lia); [reflexivity|].
  exists img'. split; [exact Hwrite | exact Hread].
Defined.

(** X2. Unchecked access does not look at the column: as 32-bit arithmetic
    goes, column [w + width] of row [h] is the same cell as column [w] of
    row [h + 1].  So where [at] reports an error, [operator()] silently
    reads a pixel of the next row. *)
Theorem unchecked_access_runs_into_next_row
    (env : Env) (unpack : bool) (o : origin) (ops : list Image.op)
    (log : list call) (img : Image.t) (log' : list call) (h w : Z) :
  lifetime env unpack o ops log = (Returns img, log') ->
  Image.height img * Image.width img < 2 ^ 32 ->
  0 <= h -> h + 1 < Image.height img -> 0 <= w < Image.width img ->
  exists p msg,
    Image.at_ img (h + 1) w = Returns p /\
    Image.op_call img h (w + Image.width img) = Returns p /\
    Image.at_ img h (w + Image.width img) = Throws (out_of_range msg).
Proof.
  intros Hlife Hsmall Hh Hh1 Hw.
  pose proof (lifetime_buffer_matches_size _ _ _ _ _ _ _ Hlife) as Hinv.
  assert (Hfit : U32.in_range (Image.height img * Image.width img))
    by (unfold U32.in_range, U32.modulus; nia).
  destruct (at_in_range img (h + 1) w Hinv Hfit) as (p & Hat & _); [lia..|].
  exists p. eexists. split; [exact Hat|]. split.
  - rewrite at_is_op_call in Hat by lia. rewrite <- Hat.
    unfold Image.op_call. f_equal. unfold Image.linear_index. f_equal.
    unfold U32.add, U32.mul, U32.wrap32, Image.width.
    rewrite !Zplus_mod_idemp_r. f_equal. lia.
  - apply at_column_out_of_range; lia.
Qed.

Lemma unchecked_access_runs_into_next_row_witness :
  exists p msg,
    Image.at_ (Image.ctor 2 3) 1 0 = Returns p /\
    Image.op_call (Image.ctor 2 3) 0 3 = Returns p /\
    Image.at_ (Image.ctor 2 3) 0 3 = Throws (out_of_range msg).
Proof.
  apply (unchecked_access_runs_into_next_row example_env true (FromDimensions 2 3) [] []
           (Image.ctor 2 3) [] 0 0); try (simpl; lia). reflexivity.
Defined.

(** ** Resizing again *)

Lemma resize_buffer img height width :
  Image.image_ (Image.resize img height width)
  = take (U32.to_size_t (U32.mul height width)) (Image.image_ img)
    ++ replicate (U32.to_size_t (U32.mul height width) - length (Image.image_ img))
                 Pixel_default.
Proof. apply resize_spec. Qed.

Lemma resize_lookup img height width (i : nat) :
  (i < U32.to_size_t (U32.mul height width))%nat ->
  Image.image_ (Image.resize img height width) !! i
  = Some (default Pixel_default (Image.image_ img !! i)).
Proof.
  intros Hi. destruct (decide (i < length (Image.image_ img))%nat) as [Hold|Hnew].
  - simpl. unfold Vector.resize. rewrite lookup_resize by done.
    destruct (lookup_lt_is_Some_2 _ _ Hold) as [p Hp]. by rewrite Hp.
  - simpl. unfold Vector.resize. rewrite lookup_resize_new by lia.
    by rewrite lookup_ge_None_2 by lia.
Qed.

(** X3. A resize keeps linear indices, not coordinates.  After
    [resize(H, W)] (with H*W below 2^32) the pixel at a valid (r, c) is the
    old cell of linear index c + r*W when there was one, and opaque white
    otherwise; when the old image had a cell of that index, it is the pixel
    the old image showed at row (c + r*W) / width, column
    (c + r*W) mod width. *)
Theorem resize_reinterprets_coordinates
    (env : Env) (unpack : bool) (o : origin) (ops : list Image.op)
    (log : list call) (img : Image.t) (log' : list call) (H W r c : Z) :
  lifetime env unpack o ops log = (Returns img, log') ->
  H * W < 2 ^ 32 -> 0 <= r < H -> 0 <= c < W ->
  Image.at_ (Image.resize img H W) r c
  = Returns (default opaque_white (Image.image_ img !! Z.to_nat (c + r * W))) /\
  (0 <= Image.width img -> Image.height img * Image.width img < 2 ^ 32 ->
   c + r * W < Image.height img * Image.width img ->
   Image.at_ (Image.resize img H W) r c
   = Image.at_ img ((c + r * W) / Image.width img) ((c + r * W) mod Image.width img)).
Proof.
  intros Hlife Hsmall Hr Hc.
  pose proof (lifetime_buffer_matches_size _ _ _ _ _ _ _ Hlife) as Hinv.
  assert (Hfit : U32.in_range (H * W)) by (unfold U32.in_range, U32.modulus; nia).
  pose proof (linear_index_bound r c H W Hr Hc) as Hbound.
  assert (Hnew : Image.at_ (Image.resize img H W) r c
                 = Returns (default opaque_white (Image.image_ img !! Z.to_nat (c + r * W)))).
  { rewrite at_is_op_call by (simpl; lia).
    unfold Image.op_call, Vector.index.
    rewrite (linear_index_valid (Image.resize img H W) r c) by (simpl; done).
    change (Image.width (Image.resize img H W)) with W.
    rewrite resize_lookup; [reflexivity|].
    rewrite mul_exact by exact Hfit. unfold U32.to_size_t. lia. }
  split; [exact Hnew|].
  intros Hw0 Hsmall0 Hold. rewrite Hnew.
  set (k := c + r * W) in *.
  assert (Hk : 0 <= k) by lia.
  assert (Hwpos : 0 < Image.width img).
  { destruct (Z.eq_dec (Image.width img) 0) as [E|]; [|lia].
    rewrite E, Z.mul_0_r in Hold. lia. }
  assert (Hfit0 : U32.in_range (Image.height img * Image.width img))
    by (unfold U32.in_range, U32.modulus; lia).
  pose proof (Z.mod_pos_bound k (Image.width img) Hwpos) as Hmod.
  pose proof (Z.div_mod k (Image.width img)) as Hdm.
  assert (Hdiv : 0 <= k / Image.width img < Image.height img).
  { split; [apply Z.div_pos; lia|]. apply Z.div_lt_upper_bound; lia. }
  destruct (at_in_range img (k / Image.width img) (k mod Image.width img) Hinv Hfit0 Hdiv Hmod)
    as (p & Hat & Hlook).
  rewrite Hat. f_equal.
  replace (k mod Image.width img + k / Image.width img * Image.width img) with k in Hlook by lia.
  by rewrite Hlook.
Qed.

Lemma resize_reinterprets_coordinates_witness :
  let img := Image.with_image (Image.ctor 2 2)
               [mkPixel 1 1 1 255; mkPixel 2 2 2 255; mkPixel 3 3 3 255; mkPixel 4 4 4 255] in
  Image.at_ img 1 0 = Returns (mkPixel 3 3 3 255) /\
  Image.at_ (Image.resize img 1 4) 0 2 = Returns (mkPixel 3 3 3 255).
Proof.
  cbn zeta. split; [reflexivity|].
  assert (Hlife : lifetime example_env true (FromDimensions 2 2)
                    [Image.AssignIndex 0 (mkPixel 1 1 1 255);
                     Image.AssignIndex 1 (mkPixel 2 2 2 255);
                     Image.AssignIndex 2 (mkPixel 3 3 3 255);
                     Image.AssignIndex 3 (mkPixel 4 4 4 255)] []
                  = (Returns (Image.with_image (Image.ctor 2 2)
                       [mkPixel 1 1 1 255; mkPixel 2 2 2 255; mkPixel 3 3 3 255;
                        mkPixel 4 4 4 255]), [])) by reflexivity.
  destruct (resize_reinterprets_coordinates _ _ _ _ _ _ _ 1 4 0 2 Hlife) as (Hnew & _);
    [lia..|].
  rewrite Hnew. reflexivity.
Defined.

(** X4. Resizes compose by their pixel counts: a resize followed by one to no
    more pixels is the second resize alone; resizing an image a program can
    hold to the dimensions it already has changes nothing; and shrinking
    loses the cut-off pixels for good, since growing back appends opaque
    white cells. *)
Theorem resize_composition
    (env : Env) (unpack : bool) (o : origin) (ops : list Image.op)
    (log : list call) (img : Image.t) (log' : list call) (H1 W1 H2 W2 : Z) :
  lifetime env unpack o ops log = (Returns img, log') ->
  Image.resize img (Image.height img) (Image.width img) = img /\
  (U32.mul H2 W2 <= U32.mul H1 W1 ->
     Image.resize (Image.resize img H1 W1) H2 W2 = Image.resize img H2 W2) /\
  (U32.mul H1 W1 <= Image.size img ->
     Image.image_ (Image.resize (Image.resize img H1 W1) (Image.height img) (Image.width img))
     = take (U32.to_size_t (U32.mul H1 W1)) (Image.image_ img)
       ++ replicate (length (Image.image_ img) - U32.to_size_t (U32.mul H1 W1)) opaque_white).
Proof.
  intros Hlife. pose proof (lifetime_buffer_matches_size _ _ _ _ _ _ _ Hlife) as Hinv.
  unfold Image.buffer_matches_size, Image.size in Hinv.
  pose proof (wrap32_range (H1 * W1)) as Hr1. pose proof (wrap32_range (H2 * W2)) as Hr2.
  unfold U32.in_range in Hr1, Hr2.
  split; [|split].
  - destruct img as [h w v t]. unfold Image.resize, Image.height, Image.width. simpl in *.
    f_equal. unfold Vector.resize. rewrite (mul_comm h w), <- Hinv. apply resize_all.
  - intros Hle. unfold Image.resize. simpl. f_equal.
    unfold Vector.resize. apply resize_resize. unfold U32.to_size_t, U32.mul in *. lia.
  - intros Hle. unfold Image.size in Hle. rewrite resize_buffer.
    unfold Image.height, Image.width. rewrite (mul_comm (Image.height_ img)), <- Hinv.
    rewrite resize_length.
    assert (Hn : (U32.to_size_t (U32.mul H1 W1) <= length (Image.image_ img))%nat).
    { rewrite Hinv. unfold U32.to_size_t, U32.mul in *. lia. }
    f_equal. rewrite firstn_all2 by (rewrite resize_length; lia).
    simpl. unfold Vector.resize. by apply resize_le.
Qed.

Lemma resize_composition_witness :
  Image.resize (Image.resize (Image.ctor 2 2) 3 3) 1 2 = Image.resize (Image.ctor 2 2) 1 2.
Proof.
  assert (Hlife : lifetime example_env true (FromDimensions 2 2) [] []
                  = (Returns (Image.ctor 2 2), [])) by reflexivity.
  destruct (resize_composition _ _ _ _ _ _ _ 3 3 1 2 Hlife) as (_ & Hshrink & _).
  apply Hshrink. vm_compute. discriminate.
Defined.

(** ** What reaches the GPU *)

Lemma textures_deleted_app l1 l2 :
  textures_deleted (l1 ++ l2) = (textures_deleted l1 + textures_deleted l2)%nat.
Proof. unfold textures_deleted. by rewrite filter_app, length_app. Qed.

Lemma assign_index_keeps_texture img i p img' :
  Image.assign_index img i p = Returns img' ->
  Image.ogl_texture_id img' = Image.ogl_texture_id img /\
  Image.height img' = Image.height img /\ Image.width img' = Image.width img.
Proof.
  unfold Image.assign_index.
  destruct (Vector.assign (Image.image_ img) i p); try discriminate.
  simpl. by intros [= <-].
Qed.

Lemma buffer_op_is_silent env unpack o img log :
  is_buffer_op o = true ->
  snd (Image.apply env unpack o img log) = log /\
  (forall img', fst (Image.apply env unpack o img log) = Returns img' ->
     Image.ogl_texture_id img' = Image.ogl_texture_id img).
Proof.
  destruct o as [height width|i p|h w p|h w p| |]; try discriminate; intros _; simpl.
  - split; [reflexivity|]. by intros img' [= <-].
  - split; [reflexivity|]. intros img' H. by apply assign_index_keeps_texture in H as (H & _).
  - split; [reflexivity|]. unfold Image.assign_call. intros img' H.
    by apply assign_index_keeps_texture in H as (H & _).
  - split; [reflexivity|]. unfold Image.assign_at. intros img'.
    destruct (Image.at_ img h w); simpl; try discriminate.
    intros H. by apply assign_index_keeps_texture in H as (H & _).
Qed.

(** X5. Resizes and pixel writes stay on the CPU side: a sequence of them,
    however it ends, makes no call at all, and the image it returns has the
    GPU handle it started with.  The copy on the GPU is only ever changed
    by [send_to_gpu]. *)
Theorem buffer_operations_never_reach_the_gpu
    (env : Env) (unpack : bool) (ops : list Image.op) (img : Image.t) (log : list call) :
  Forall (fun o => is_buffer_op o = true) ops ->
  snd (Image.apply_all env unpack ops img log) = log /\
  (forall img', fst (Image.apply_all env unpack ops img log) = Returns img' ->
     Image.ogl_texture_id img' = Image.ogl_texture_id img /\
     Image.on_gpu img' = Image.on_gpu img).
Proof.
  intros Hops. revert img. induction Hops as [|o ops Ho Hops IH]; intros img.
  - simpl. split; [reflexivity|]. by intros img' [= <-].
  - destruct (buffer_op_is_silent env unpack o img log Ho) as (Hlog & Hid).
    cbn [Image.apply_all]. run_M.
    destruct (Image.apply env unpack o img log) as [[img1| |] log1] eqn:Hstep;
      simpl in Hlog; subst log1; try (split; [reflexivity | discriminate]).
    destruct (IH img1) as (Hlog' & Hid').
    split; [exact Hlog'|]. intros img' Hret.
    destruct (Hid' img' Hret) as (Hsame & _).
    rewrite Hsame, (Hid img1 eq_refl). split; [reflexivity|].
    unfold Image.on_gpu. unfold Image.ogl_texture_id in *.
    by rewrite Hsame, (Hid img1 eq_refl).
Qed.

Lemma buffer_operations_never_reach_the_gpu_witness :
  snd (Image.apply_all example_env true
         [Image.Resize 2 2; Image.AssignAt 1 1 (mkPixel 0 0 0 255); Image.AssignAt 5 5 opaque_white]
         (Image.mk 1 1 [opaque_white] (Some 9)) []) = [].
Proof.
  apply (buffer_operations_never_reach_the_gpu example_env true
           [Image.Resize 2 2; Image.AssignAt 1 1 (mkPixel 0 0 0 255);
            Image.AssignAt 5 5 opaque_white]).
  repeat constructor.
Defined.

Ltac tally Hid :=
  unfold textures_held, Image.on_gpu, textures_generated, textures_deleted;
  unfold Image.ogl_texture_id in Hid; simpl; rewrite ?Hid; simpl; lia.

Lemma apply_balanced env unpack o img log img' log' :
  Image.apply env unpack o img log = (Returns img', log') ->
  exists log1, log' = log ++ log1 /\
    (textures_held img + textures_generated log1
     = textures_deleted log1 + textures_held img')%nat.
Proof.
  destruct (is_buffer_op o) eqn:Hkind.
  - destruct (buffer_op_is_silent env unpack o img log Hkind) as (Hlog & Hid).
    intros Hrun. rewrite Hrun in Hlog, Hid. simpl in Hlog. subst log'.
    exists []. rewrite app_nil_r. split; [reflexivity|].
    specialize (Hid img' eq_refl). tally Hid.
  - destruct o; try discriminate; simpl.
    + destruct (Image.ogl_texture_id img) as [id|] eqn:Hid.
      * rewrite (send_to_gpu_again _ _ _ _ _ Hid). intros [= <- <-].
        eexists. split; [reflexivity|]. tally Hid.
      * rewrite (send_to_gpu_first _ _ _ _ Hid). intros [= <- <-].
        eexists. split; [reflexivity|]. destruct unpack; tally Hid.
    + destruct (Image.ogl_texture_id img) as [id|] eqn:Hid.
      * rewrite (delete_from_gpu_present _ _ _ Hid). intros [= <- <-].
        eexists. split; [reflexivity|]. tally Hid.
      * rewrite (delete_from_gpu_absent _ _ Hid). intros [= <- <-].
        exists []. rewrite app_nil_r. split; [reflexivity | tally Hid].
Qed.

Lemma apply_all_balanced env unpack ops :
  forall img log img' log',
    Image.apply_all env unpack ops img log = (Returns img', log') ->
    exists log1, log' = log ++ log1 /\
      (textures_held img + textures_generated log1
       = textures_deleted log1 + textures_held img')%nat.
Proof.
  induction ops as [|o ops IH]; intros img log img' log'; simpl.
  - intros [= <- <-]. exists []. rewrite app_nil_r. split; [reflexivity | cbn; lia].
  - intros Hrun. apply bind_returns_inv in Hrun as (img1 & log1 & Hstep & Hrest).
    apply apply_balanced in Hstep as (la & -> & Ha).
    apply IH in Hrest as (lb & -> & Hb).
    exists (la ++ lb). rewrite app_assoc. split; [reflexivity|].
    rewrite textures_generated_app, textures_deleted_app. lia.
Qed.

Ltac not_in_log Hin :=
  repeat (apply elem_of_cons in Hin as [Hin|Hin]; [discriminate|]);
  by apply elem_of_nil in Hin.

Lemma from_file_outcomes env fname log :
  exists log1,
    snd (Image.from_file env fname log) = log ++ log1 /\
    Forall (fun c => is_gl_call c = false) log1 /\
    (forall img, fst (Image.from_file env fname log) = Returns img ->
       last log1 = Some stbi_image_free) /\
    (forall e, fst (Image.from_file env fname log) = Throws e ->
       stbi_image_free ∉ log1).
Proof.
  unfold Image.from_file. run_M.
  destruct (fs_exists env log fname); simpl.
  - destruct (stbi_decode env _ fname) as [decoded|].
    + destruct (Image.copy_pixels _ _ _ _) as [img1| |]; simpl;
        rewrite <- ?app_assoc; eexists; (split; [reflexivity|]);
        (split; [repeat constructor|]).
      * split; [reflexivity | discriminate].
      * split; [discriminate|]. intros e' _ Hin. not_in_log Hin.
      * split; discriminate.
    + rewrite <- ?app_assoc. eexists. split; [reflexivity|].
      split; [repeat constructor|]. split; [discriminate|].
      intros e _ Hin. not_in_log Hin.
  - eexists. split; [reflexivity|]. split; [repeat constructor|].
    split; [discriminate|]. intros e _ Hin. not_in_log Hin.
Qed.

Lemma copy_pixels_keeps_texture bytes n :
  forall i img img',
    Image.copy_pixels bytes n i img = Returns img' ->
    Image.ogl_texture_id img' = Image.ogl_texture_id img /\
    Image.height img' = Image.height img /\ Image.width img' = Image.width img.
Proof.
  induction n as [|n IH]; intros i img img'; simpl.
  - by intros [= <-].
  - destruct (Image.pdata_index bytes i) as [p| |]; try discriminate. simpl.
    destruct (Image.assign_index img i p) as [img1| |] eqn:Hassign; try discriminate.
    simpl. intros Hrest. apply IH in Hrest as (-> & -> & ->).
    by apply assign_index_keeps_texture in Hassign.
Qed.

Lemma from_file_no_texture env fname log img log' :
  Image.from_file env fname log = (Returns img, log') ->
  Image.ogl_texture_id img = None.
Proof.
  unfold Image.from_file. run_M.
  destruct (fs_exists env log fname); simpl; [|discriminate].
  destruct (stbi_decode env _ fname) as [decoded|]; [|discriminate].
  destruct (Image.copy_pixels _ _ _ _) as [img1| |] eqn:Hcopy; try discriminate.
  intros [= <- _]. by apply copy_pixels_keeps_texture in Hcopy as (-> & _).
Qed.


Lemma no_gl_call_counts l :
  Forall (fun c => is_gl_call c = false) l ->
  textures_generated l = 0%nat /\ textures_deleted l = 0%nat.
Proof.
  unfold textures_generated, textures_deleted.
  induction 1 as [|c l Hc Hl [IHg IHd]]; [by split|].
  rewrite !filter_cons. destruct c; simpl in *; try discriminate; by split.
Qed.

Lemma construct_balanced env o log img log' :
  construct env o log = (Returns img, log') ->
  exists log1, log' = log ++ log1 /\
    textures_generated log1 = 0%nat /\ textures_deleted log1 = 0%nat /\
    textures_held img = 0%nat.
Proof.
  destruct o as [height width|fname]; simpl.
  - intros [= <- <-]. exists []. rewrite app_nil_r. by repeat split.
  - intros Hrun. destruct (from_file_outcomes env fname log) as (log1 & Hlog & Hgl & _).
    rewrite Hrun in Hlog. simpl in Hlog. exists log1. split; [exact Hlog|].
    destruct (no_gl_call_counts _ Hgl) as [-> ->]. do 2 (split; [reflexivity|]).
    apply from_file_no_texture in Hrun. unfold textures_held, Image.on_gpu.
    unfold Image.ogl_texture_id in Hrun. by rewrite Hrun.
Qed.

Lemma lifetime_textures_balanced
    (env : Env) (unpack : bool) (o : origin) (ops : list Image.op)
    (log : list call) (img : Image.t) (log' : list call) :
  lifetime env unpack o ops log = (Returns img, log') ->
  exists (img' : Image.t) (used released : list call),
    log' = log ++ used /\
    Image.dtor img log' = (Returns img', log' ++ released) /\
    Image.on_gpu img' = false /\
    textures_generated used = (textures_deleted used + textures_held img)%nat /\
    (textures_held img <= 1)%nat /\
    textures_generated (used ++ released) = textures_deleted (used ++ released).
Proof.
  intros Hlife. unfold lifetime in Hlife.
  apply bind_returns_inv in Hlife as (img0 & log0 & Hmade & Hops).
  apply construct_balanced in Hmade as (la & -> & Hga & Hda & Hha).
  apply apply_all_balanced in Hops as (lb & -> & Hb).
  assert (Hused : textures_generated (la ++ lb)
                  = (textures_deleted (la ++ lb) + textures_held img)%nat).
  { rewrite textures_generated_app, textures_deleted_app. lia. }
  assert (Hone : (textures_held img <= 1)%nat).
  { unfold textures_held. destruct (Image.on_gpu img); lia. }
  unfold Image.dtor.
  destruct (Image.ogl_texture_id img) as [id|] eqn:Hid.
  - exists (Image.with_texture img None), (la ++ lb), [glDeleteTextures 1 id].
    rewrite <- app_assoc. split; [reflexivity|].
    split; [by apply delete_from_gpu_present|]. split; [reflexivity|].
    split; [exact Hused|]. split; [exact Hone|].
    rewrite textures_generated_app, textures_deleted_app, Hused.
    unfold textures_held, Image.on_gpu. unfold Image.ogl_texture_id in Hid. rewrite Hid.
    change (textures_generated [glDeleteTextures 1 id]) with 0%nat.
    change (textures_deleted [glDeleteTextures 1 id]) with 1%nat. lia.
  - exists img, (la ++ lb), []. rewrite <- app_assoc, !app_nil_r.
    split; [reflexivity|]. split; [by apply delete_from_gpu_absent|].
    assert (Hoff : Image.on_gpu img = false).
    { unfold Image.on_gpu. unfold Image.ogl_texture_id in Hid. by rewrite Hid. }
    split; [exact Hoff|]. split; [exact Hused|]. split; [exact Hone|].
    rewrite Hused. unfold textures_held. rewrite Hoff. lia.
Qed.

(** X6. For one image object that is never copied and never assigned to,
    no texture leaks and none is deleted twice: over its whole life
    (construction or decoding, any sequence of [resize], pixel writes,
    [send_to_gpu] and [delete_from_gpu], then its destructor) the calls to
    [glGenTextures] and to [glDeleteTextures] are equal in number; before
    the destructor runs, the difference is exactly the one texture the image
    holds, if it holds one.  The class does not keep this up for copies: it
    declares a destructor only, so a copy carries the same handle, and
    destroying the original and the copy deletes the same texture twice;
    and assigning an image without a handle over one that holds a texture
    drops the handle, so that the texture is never deleted. *)
Theorem every_texture_is_released
    (env : Env) (unpack : bool) (o : origin) (ops : list Image.op)
    (log : list call) (img : Image.t) (log' : list call) :
  lifetime env unpack o ops log = (Returns img, log') ->
  exists (img' : Image.t) (used released : list call),
    log' = log ++ used /\
    Image.dtor img log' = (Returns img', log' ++ released) /\
    Image.on_gpu img' = false /\
    textures_generated used = (textures_deleted used + textures_held img)%nat /\
    (textures_held img <= 1)%nat /\
    textures_generated (used ++ released) = textures_deleted (used ++ released) /\
    (forall id : Z, Image.ogl_texture_id img = Some id ->
       released = [glDeleteTextures 1 id] /\
       Image.ogl_texture_id (Image.copy_ctor img) = Some id /\
       (exists copy', Image.dtor (Image.copy_ctor img) (log' ++ released)
                      = (Returns copy', log' ++ released ++ [glDeleteTextures 1 id])) /\
       textures_deleted (used ++ released ++ [glDeleteTextures 1 id])
       = S (textures_generated (used ++ released ++ [glDeleteTextures 1 id]))) /\
    (forall other : Image.t,
       Image.on_gpu img = true -> Image.on_gpu other = false ->
       Image.dtor (Image.copy_assign img other) log'
       = (Returns (Image.copy_assign img other), log') /\
       textures_generated used = S (textures_deleted used)).
Proof.
  intros Hlife.
  destruct (lifetime_textures_balanced _ _ _ _ _ _ _ Hlife)
    as (img' & used & released & Hlog & Hdtor & Hoff & Hused & Hone & Hbalance).
  exists img', used, released.
  do 6 (split; [assumption|]). split.
  - intros id Hid.
    assert (Hreleased : released = [glDeleteTextures 1 id]).
    { unfold Image.dtor in Hdtor. rewrite (delete_from_gpu_present _ _ _ Hid) in Hdtor.
      injection Hdtor as _ Hsame. by apply app_inv_head in Hsame. }
    split; [exact Hreleased|]. split; [exact Hid|]. split.
    + exists (Image.with_texture (Image.copy_ctor img) None). unfold Image.dtor.
      rewrite (delete_from_gpu_present (Image.copy_ctor img) id) by exact Hid.
      by rewrite <- app_assoc.
    + rewrite app_assoc, textures_deleted_app, textures_generated_app, <- Hbalance.
      change (textures_deleted [glDeleteTextures 1 id]) with 1%nat.
      change (textures_generated [glDeleteTextures 1 id]) with 0%nat. lia.
  - intros other Hon Hother. split.
    + unfold Image.dtor. apply delete_from_gpu_absent.
      unfold Image.on_gpu in Hother. unfold Image.ogl_texture_id, Image.copy_assign. simpl.
      by destruct (Image.ogl_texture_id_ other).
    + rewrite Hused. unfold textures_held. rewrite Hon. lia.
Qed.

Lemma every_texture_is_released_witness :
  match lifetime example_env true (FromFile "icon.png")
          [Image.SendToGpu; Image.Resize 2 2; Image.SendToGpu; Image.DeleteFromGpu;
           Image.SendToGpu] []
  with
  | (Returns img, log) =>
      textures_generated log = 2%nat /\ textures_deleted log = 1%nat /\
      exists img' released,
        Image.dtor img log = (Returns img', log ++ released) /\
        textures_generated (log ++ released) = textures_deleted (log ++ released) /\
        released = [glDeleteTextures 1 2] /\
        exists copy', Image.dtor (Image.copy_ctor img) (log ++ released)
                      = (Returns copy', log ++ released ++ [glDeleteTextures 1 2])
  | _ => False
  end.
Proof.
  destruct (lifetime example_env true (FromFile "icon.png")
              [Image.SendToGpu; Image.Resize 2 2; Image.SendToGpu; Image.DeleteFromGpu;
               Image.SendToGpu] []) as [[img| |] log] eqn:Hlife.
  - destruct (every_texture_is_released _ _ _ _ _ _ _ Hlife)
      as (img' & used & released & Hused & Hdtor & _ & _ & _ & Hbalance & Hcopy & _).
    simpl in Hused. subst used.
    vm_compute in Hlife. injection Hlife as <- <-.
    destruct (Hcopy 2 eq_refl) as (Hreleased & _ & Htwice & _).
    split; [reflexivity|]. split; [reflexivity|].
    exists img', released.
    split; [exact Hdtor|]. split; [exact Hbalance|]. split; [exact Hreleased | exact Htwice].
  - vm_compute in Hlife. discriminate Hlife.
  - vm_compute in Hlife. discriminate Hlife.
Defined.

(** ** Decoding a file that decodes *)

Lemma pdata_index_in_range bytes (i : nat) :
  (4 * i + 3 < length bytes)%nat -> exists p, Image.pdata_index bytes i = Returns p.
Proof.
  intros Hlen. unfold Image.pdata_index.
  destruct (lookup_lt_is_Some_2 bytes (4 * i)%nat) as [r ->]; [lia|].
  destruct (lookup_lt_is_Some_2 bytes (4 * i + 1)%nat) as [g ->]; [lia|].
  destruct (lookup_lt_is_Some_2 bytes (4 * i + 2)%nat) as [b ->]; [lia|].
  destruct (lookup_lt_is_Some_2 bytes (4 * i + 3)%nat) as [a ->]; [lia|].
  by eexists.
Qed.

Lemma copy_pixels_copies bytes n :
  forall i img,
    (i + n <= length (Image.image_ img))%nat ->
    (4 * (i + n) <= length bytes)%nat ->
    exists img',
      Image.copy_pixels bytes n i img = Returns img' /\
      length (Image.image_ img') = length (Image.image_ img) /\
      (forall j : nat, (i <= j < i + n)%nat ->
         Image.op_index img' j = Image.pdata_index bytes j) /\
      (forall j : nat, (j < i)%nat -> Image.image_ img' !! j = Image.image_ img !! j).
Proof.
  induction n as [|n IH]; intros i img Himg Hbytes.
  - exists img. simpl. split; [reflexivity|]. split; [reflexivity|].
    split; [intros j Hj; lia | done].
  - cbn [Image.copy_pixels].
    destruct (pdata_index_in_range bytes i) as [p Hp]; [lia|]. rewrite Hp. simpl.
    destruct (lookup_lt_is_Some_2 (Image.image_ img) i) as [q Hq]; [lia|].
    unfold Image.assign_index at 1, Vector.assign. rewrite Hq. simpl.
    set (img1 := Image.with_image img (<[i := p]> (Image.image_ img))).
    destruct (IH (S i) img1) as (img' & Hrun & Hlen & Hnew & Hold).
    { subst img1. simpl. rewrite length_insert. lia. }
    { lia. }
    exists img'. split; [exact Hrun|].
    subst img1. simpl in Hlen, Hold. rewrite length_insert in Hlen.
    split; [exact Hlen|]. split.
    + intros j Hj. destruct (decide (j = i)) as [->|Hne].
      * unfold Image.op_index, Vector.index. rewrite Hold by lia.
        rewrite list_lookup_insert_eq by lia. by rewrite Hp.
      * apply Hnew. lia.
    + intros j Hj. rewrite Hold by lia. apply list_lookup_insert_ne. lia.
Qed.

(** X8. When the file exists and the decoder returns a [width] x [height]
    image (two non-negative [int]s whose product fits in 32 bits) with its
    4 * width * height bytes, [from_file] returns an image of that height
    and width, without GPU handle, whose pixel [i] is made of the four
    bytes at offset [4 * i] in channel order red, green, blue, alpha; the
    only calls are the existence check, [stbi_load] asking for 4 channels,
    and [stbi_image_free]. *)
Theorem from_file_decodes
    (env : Env) (fname : string) (log : list call) (decoded : stbi_image) :
  fs_exists env log fname = true ->
  stbi_decode env (log ++ [std_filesystem_exists fname true]) fname = Some decoded ->
  0 <= img_width decoded < 2 ^ 31 -> 0 <= img_height decoded < 2 ^ 31 ->
  img_width decoded * img_height decoded < 2 ^ 32 ->
  Z.of_nat (length (data decoded)) = 4 * (img_width decoded * img_height decoded) ->
  exists img,
    Image.from_file env fname log
    = (Returns img,
       log ++ [std_filesystem_exists fname true; stbi_load fname 4 (Some decoded);
               stbi_image_free]) /\
    Image.height img = img_height decoded /\ Image.width img = img_width decoded /\
    Image.ogl_texture_id img = None /\
    Z.of_nat (length (Image.image_ img)) = img_width decoded * img_height decoded /\
    (forall i : nat, Z.of_nat i < img_width decoded * img_height decoded ->
       exists r g b a,
         data decoded !! (4 * i)%nat = Some r /\ data decoded !! (4 * i + 1)%nat = Some g /\
         data decoded !! (4 * i + 2)%nat = Some b /\ data decoded !! (4 * i + 3)%nat = Some a /\
         Image.op_index img i = Returns (mkPixel r g b a)).
Proof.
  intros Hex Hdec Hw Hh Hsmall Hlen.
  set (W := img_width decoded) in *. set (H := img_height decoded) in *.
  assert (HW : U32.wrap32 W = W)
    by (apply wrap32_small; unfold U32.in_range, U32.modulus; lia).
  assert (HH : U32.wrap32 H = H)
    by (apply wrap32_small; unfold U32.in_range, U32.modulus; lia).
  assert (Hfit : U32.in_range (W * H)) by (unfold U32.in_range, U32.modulus; nia).
  set (N := Z.to_nat (W * H)).
  assert (Hsize : U32.to_size_t (Image.size (Image.ctor H W)) = N).
  { unfold Image.size. simpl. by rewrite mul_exact. }
  assert (Hbuf : length (Image.image_ (Image.ctor H W)) = N).
  { rewrite ctor_length, mul_comm. by rewrite mul_exact. }
  destruct (copy_pixels_copies (data decoded) N 0 (Image.ctor H W))
    as (img & Hcopy & Himglen & Hpix & _); [lia | lia |].
  exists img.
  apply copy_pixels_keeps_texture in Hcopy as Hsame. destruct Hsame as (Hid & Hheight & Hwidth).
  split.
  { unfold Image.from_file.
    rewrite (bind_returns _ _ log true (log ++ [std_filesystem_exists fname true]))
      by (unfold ask; by rewrite Hex).
    cbn [negb].
    rewrite (bind_returns _ _ _ (Some decoded)
               ((log ++ [std_filesystem_exists fname true])
                ++ [stbi_load fname 4 (Some decoded)]))
      by (unfold ask; by rewrite Hdec).
    cbv zeta. fold W H. rewrite HW, HH, Hsize.
    rewrite (bind_returns _ _ _ img
               ((log ++ [std_filesystem_exists fname true])
                ++ [stbi_load fname 4 (Some decoded)]))
      by (unfold lift; by rewrite Hcopy).
    run_M. by rewrite <- !app_assoc. }
  split; [exact Hheight|]. split; [exact Hwidth|]. split; [exact Hid|].
  split; [rewrite Himglen, Hbuf; subst N; lia|].
  intros i Hi. rewrite Hpix by (subst N; lia). unfold Image.pdata_index.
  destruct (lookup_lt_is_Some_2 (data decoded) (4 * i)%nat) as [r ->]; [lia|].
  destruct (lookup_lt_is_Some_2 (data decoded) (4 * i + 1)%nat) as [g ->]; [lia|].
  destruct (lookup_lt_is_Some_2 (data decoded) (4 * i + 2)%nat) as [b ->]; [lia|].
  destruct (lookup_lt_is_Some_2 (data decoded) (4 * i + 3)%nat) as [a ->]; [lia|].
  by exists r, g, b, a.
Qed.

Lemma from_file_decodes_witness :
  exists img,
    Image.from_file example_env "icon.png" []
    = (Returns img,
       [std_filesystem_exists "icon.png" true;
        stbi_load "icon.png" 4 (Some (mk_stbi_image 2 1 [10; 20; 30; 255; 40; 50; 60; 255]));
        stbi_image_free]) /\
    Image.op_index img 1 = Returns (mkPixel 40 50 60 255).
Proof.
  destruct (from_file_decodes example_env "icon.png" []
              (mk_stbi_image 2 1 [10; 20; 30; 255; 40; 50; 60; 255]))
    as (img & Hrun & _ & _ & _ & _ & Hpix); try reflexivity; try (simpl; lia).
  exists img. split; [exact Hrun|].
  destruct (Hpix 1%nat) as (r & g & b & a & Hr & Hg & Hb & Ha & Hread); [simpl; lia|].
  simpl in Hr, Hg, Hb, Ha. injection Hr as <-. injection Hg as <-.
  injection Hb as <-. injection Ha as <-. exact Hread.
Defined.

(** ** The configuration switches *)

Ltac bitwise :=
  apply Z.bits_inj'; intros n Hn;
  rewrite ?Z.land_spec, ?Z.lor_spec, ?Z.lnot_spec, ?Z.bits_0 by exact Hn;
  rewrite ?Z.land_spec, ?Z.lor_spec, ?Z.lnot_spec, ?Z.bits_0 by exact Hn.

Lemma lor_sets cf f : Z.land (Z.lor cf f) f = f.
Proof. bitwise. destruct (Z.testbit cf n), (Z.testbit f n); reflexivity. Qed.

Lemma land_lnot_clears cf f : Z.land (Z.land cf (Z.lnot f)) f = 0.
Proof. bitwise. destruct (Z.testbit cf n), (Z.testbit f n); reflexivity. Qed.

Lemma disjoint_bits f g n : Z.land f g = 0 -> 0 <= n -> Z.testbit f n && Z.testbit g n = false.
Proof. intros H Hn. rewrite <- Z.land_spec, H. apply Z.bits_0. Qed.

Lemma lor_keeps_other cf f g : Z.land f g = 0 -> Z.land (Z.lor cf f) g = Z.land cf g.
Proof.
  intros Hdis. bitwise. pose proof (disjoint_bits f g n Hdis Hn).
  destruct (Z.testbit cf n), (Z.testbit f n), (Z.testbit g n); done.
Qed.

Lemma land_lnot_keeps_other cf f g :
  Z.land f g = 0 -> Z.land (Z.land cf (Z.lnot f)) g = Z.land cf g.
Proof.
  intros Hdis. bitwise. pose proof (disjoint_bits f g n Hdis Hn).
  destruct (Z.testbit cf n), (Z.testbit f n), (Z.testbit g n); done.
Qed.

Lemma lor_after_clear cf f : Z.lor (Z.land cf (Z.lnot f)) f = Z.lor cf f.
Proof. bitwise. destruct (Z.testbit cf n), (Z.testbit f n); reflexivity. Qed.

Lemma clear_after_lor cf f : Z.land (Z.lor cf f) (Z.lnot f) = Z.land cf (Z.lnot f).
Proof. bitwise. destruct (Z.testbit cf n), (Z.testbit f n); reflexivity. Qed.

Lemma enable_flags K f app :
  App.ConfigFlags (Flags.enable K f app) = Z.lor (App.ConfigFlags app) (Flags.flag_of K f) /\
  App.layers_ (Flags.enable K f app) = App.layers_ app /\
  App.this_ (Flags.enable K f app) = App.this_ app.
Proof. destruct f; by repeat split. Qed.

Lemma disable_flags K f app :
  App.ConfigFlags (Flags.disable K f app)
  = Z.land (App.ConfigFlags app) (Z.lnot (Flags.flag_of K f)) /\
  App.layers_ (Flags.disable K f app) = App.layers_ app /\
  App.this_ (Flags.disable K f app) = App.this_ app.
Proof. destruct f; by repeat split. Qed.

(** X9. The eight switches ([enable_docking], [disable_docking] and so on):
    enabling a capability sets its bits and disabling it clears them,
    whatever the flags were; neither changes the bits of a capability whose
    constant shares no bit with it; the last switch wins (enable after
    disable is enable, disable after enable is disable); and the layer
    stack is never touched. *)
Theorem switches_set_and_clear
    (K : ImGuiConfigFlags) (f g : Flags.feature) (app : App.t) :
  Flags.enabled K f (Flags.enable K f app) /\
  Flags.disabled K f (Flags.disable K f app) /\
  (Z.land (Flags.flag_of K f) (Flags.flag_of K g) = 0 ->
     Z.land (App.ConfigFlags (Flags.enable K f app)) (Flags.flag_of K g)
     = Z.land (App.ConfigFlags app) (Flags.flag_of K g) /\
     Z.land (App.ConfigFlags (Flags.disable K f app)) (Flags.flag_of K g)
     = Z.land (App.ConfigFlags app) (Flags.flag_of K g)) /\
  Flags.enable K f (Flags.disable K f app) = Flags.enable K f app /\
  Flags.disable K f (Flags.enable K f app) = Flags.disable K f app /\
  Flags.enable K f (Flags.enable K f app) = Flags.enable K f app /\
  Flags.disable K f (Flags.disable K f app) = Flags.disable K f app /\
  App.layers_ (Flags.enable K f app) = App.layers_ app /\
  App.layers_ (Flags.disable K f app) = App.layers_ app.
Proof.
  destruct (enable_flags K f app) as (He & Hel & _).
  destruct (disable_flags K f app) as (Hd & Hdl & _).
  split; [unfold Flags.enabled; rewrite He; apply lor_sets|].
  split; [unfold Flags.disabled; rewrite Hd; apply land_lnot_clears|].
  split.
  { intros Hdis. rewrite He, Hd.
    split; [by apply lor_keeps_other | by apply land_lnot_keeps_other]. }
  split.
  { destruct f; unfold Flags.enable, Flags.disable, Flags.enable_docking,
      Flags.enable_viewports, Flags.enable_gamepad, Flags.enable_keyboard,
      Flags.disable_docking, Flags.disable_viewports, Flags.disable_gamepad,
      Flags.disable_keyboard, Flags.with_ConfigFlags; simpl;
      by rewrite lor_after_clear. }
  split.
  { destruct f; unfold Flags.enable, Flags.disable, Flags.enable_docking,
      Flags.enable_viewports, Flags.enable_gamepad, Flags.enable_keyboard,
      Flags.disable_docking, Flags.disable_viewports, Flags.disable_gamepad,
      Flags.disable_keyboard, Flags.with_ConfigFlags; simpl;
      by rewrite clear_after_lor. }
  split.
  { destruct f; unfold Flags.enable, Flags.enable_docking,
      Flags.enable_viewports, Flags.enable_gamepad, Flags.enable_keyboard,
      Flags.with_ConfigFlags; simpl;
      by rewrite <- Z.lor_assoc, Z.lor_diag. }
  split.
  { destruct f; unfold Flags.disable, Flags.disable_docking, Flags.disable_viewports,
      Flags.disable_gamepad, Flags.disable_keyboard, Flags.with_ConfigFlags; simpl;
      by rewrite <- Z.land_assoc, Z.land_diag. }
  split; [exact Hel | exact Hdl].
Qed.

Lemma switches_set_and_clear_witness :
  Z.land (App.ConfigFlags (Flags.enable imgui_flags Flags.Docking (App.mk 0 1025 [])))
         (Flags.flag_of imgui_flags Flags.Viewports)
  = 1024.
Proof.
  destruct (switches_set_and_clear imgui_flags Flags.Docking Flags.Viewports (App.mk 0 1025 []))
    as (_ & _ & Hother & _).
  destruct Hother as (Hen & _); [reflexivity|].
  rewrite Hen. reflexivity.
Defined.

(** ** Viewports and the loop *)

Lemma looked_frame_spelled layers (viewports : bool) :
  looked_frame layers viewports
  = [glfwWindowShouldClose false;
          glfwPollEvents; ImGui_ImplOpenGL3_NewFrame; ImGui_ImplGlfw_NewFrame; ImGui_NewFrame]
         ++ map Layer_render layers
         ++ [ImGui_Render; glfwGetFramebufferSize; glViewport; glClearColor;
             glClear GL_COLOR_BUFFER_BIT; ImGui_ImplOpenGL3_RenderDrawData]
         ++ (if viewports
             then [glfwGetCurrentContext; ImGui_UpdatePlatformWindows;
                   ImGui_RenderPlatformWindowsDefault; glfwMakeContextCurrent]
             else [])
         ++ [glfwSwapBuffers].
Proof.
  unfold looked_frame, frame_calls, frame_begin, frame_end.
  repeat (progress (rewrite <- ?app_assoc; cbn [Datatypes.app])). reflexivity.
Qed.

(** [run] in full, every call spelled out. *)
Lemma run_spelled env flag fuel app log :
  exists (styled : bool) (vps : list bool) (left_loop : bool),
    let frame := fun viewports : bool =>
         [glfwWindowShouldClose false;
          glfwPollEvents; ImGui_ImplOpenGL3_NewFrame; ImGui_ImplGlfw_NewFrame; ImGui_NewFrame]
         ++ map Layer_render (App.layers_ app)
         ++ [ImGui_Render; glfwGetFramebufferSize; glViewport; glClearColor;
             glClear GL_COLOR_BUFFER_BIT; ImGui_ImplOpenGL3_RenderDrawData]
         ++ (if viewports
             then [glfwGetCurrentContext; ImGui_UpdatePlatformWindows;
                   ImGui_RenderPlatformWindowsDefault; glfwMakeContextCurrent]
             else [])
         ++ [glfwSwapBuffers] in
    let prelude :=
      if styled then [style_WindowRounding_assign; style_Colors_WindowBg_w_assign] else [] in
    App.run env flag fuel app log
    = (Returns left_loop,
       log ++ prelude ++ concat (map frame vps)
           ++ (if left_loop then [glfwWindowShouldClose true] else [])) /\
    styled = App.has_flag (ConfigFlags_now env log (App.ConfigFlags app)) flag /\
    (forall (i : nat) (vp : bool), vps !! i = Some vp ->
       window_should_close env (log ++ prelude ++ concat (map frame (take i vps))) = false /\
       vp = App.has_flag
              (ConfigFlags_now env
                 (log ++ prelude ++ concat (map frame (take i vps))
                      ++ glfwWindowShouldClose false :: frame_until_flags (App.layers_ app))
                 (App.ConfigFlags app)) flag) /\
    (if left_loop
     then window_should_close env (log ++ prelude ++ concat (map frame vps)) = true
     else length vps = fuel).
Proof.
  destruct (run_runs env flag fuel app log)
    as (styled & vps & left_loop & Hrun & Hstyled & Hframes & Hend).
  exists styled, vps, left_loop. cbn zeta.
  assert (Hmap : forall vs : list bool,
             map (looked_frame (App.layers_ app)) vs
             = map (fun viewports : bool =>
         [glfwWindowShouldClose false;
          glfwPollEvents; ImGui_ImplOpenGL3_NewFrame; ImGui_ImplGlfw_NewFrame; ImGui_NewFrame]
         ++ map Layer_render (App.layers_ app)
         ++ [ImGui_Render; glfwGetFramebufferSize; glViewport; glClearColor;
             glClear GL_COLOR_BUFFER_BIT; ImGui_ImplOpenGL3_RenderDrawData]
         ++ (if viewports
             then [glfwGetCurrentContext; ImGui_UpdatePlatformWindows;
                   ImGui_RenderPlatformWindowsDefault; glfwMakeContextCurrent]
             else [])
         ++ [glfwSwapBuffers]) vs).
  { intros vs. apply map_ext. intros vp. apply looked_frame_spelled. }
  unfold run_prelude, run_closing in *.
  rewrite !Hmap in Hrun, Hend.
  split; [exact Hrun|]. split; [exact Hstyled|]. split; [|exact Hend].
  intros i vp Hi. destruct (Hframes i vp Hi) as (Hopen & Hvp).
  rewrite Hmap in Hopen, Hvp. by split.
Qed.

Lemma has_flag_after_enable K app :
  ImGuiConfigFlags_ViewportsEnable K <> 0 ->
  App.has_flag (App.ConfigFlags (Flags.enable_viewports K app))
               (ImGuiConfigFlags_ViewportsEnable K) = true.
Proof.
  intros Hnz. unfold App.has_flag, Flags.enable_viewports. simpl.
  rewrite lor_sets. by destruct (Z.eqb_spec (ImGuiConfigFlags_ViewportsEnable K) 0).
Qed.

Lemma has_flag_after_disable K app :
  App.has_flag (App.ConfigFlags (Flags.disable_viewports K app))
               (ImGuiConfigFlags_ViewportsEnable K) = false.
Proof.
  unfold App.has_flag, Flags.disable_viewports. simpl. by rewrite land_lnot_clears.
Qed.

Lemma all_equal_replicate (vps : list bool) (b : bool) :
  (forall (i : nat) (vp : bool), vps !! i = Some vp -> vp = b) ->
  vps = replicate (length vps) b.
Proof.
  induction vps as [|v vps IH]; intros Hall; [reflexivity|]. simpl.
  rewrite (Hall 0%nat v eq_refl). f_equal. apply IH.
  intros i vp Hi. exact (Hall (S i) vp Hi).
Qed.

Lemma map_replicate {A B} (f : A -> B) (n : nat) (x : A) :
  map f (replicate n x) = replicate n (f x).
Proof. induction n as [|n IH]; simpl; [reflexivity | by rewrite IH]. Qed.

(** X10. The viewports switch and [run].  In every run, whether [run]
    starts by adjusting the window style is decided by the flags found on
    entry, and whether a frame handles the platform windows is decided by
    the flags found in that frame after its layers were rendered.  So, when
    nothing but the App changes the flags (and the constant is a non-zero
    flag): after [enable_viewports], [run] adjusts the style first and
    every frame updates and renders the platform windows between drawing
    and swapping buffers; after [disable_viewports], [run] makes none of
    these calls. *)
Theorem viewports_switch_drives_run
    (env : Env) (K : ImGuiConfigFlags) (fuel : nat) (app : App.t) (log : list call) :
  let flag := ImGuiConfigFlags_ViewportsEnable K in
  let frame := fun viewports : bool =>
         [glfwWindowShouldClose false;
          glfwPollEvents; ImGui_ImplOpenGL3_NewFrame; ImGui_ImplGlfw_NewFrame; ImGui_NewFrame]
         ++ map Layer_render (App.layers_ app)
         ++ [ImGui_Render; glfwGetFramebufferSize; glViewport; glClearColor;
             glClear GL_COLOR_BUFFER_BIT; ImGui_ImplOpenGL3_RenderDrawData]
         ++ (if viewports
             then [glfwGetCurrentContext; ImGui_UpdatePlatformWindows;
                   ImGui_RenderPlatformWindowsDefault; glfwMakeContextCurrent]
             else [])
         ++ [glfwSwapBuffers] in
  let prelude := fun styled : bool =>
    if styled then [style_WindowRounding_assign; style_Colors_WindowBg_w_assign] else [] in
  let closing := fun left_loop : bool =>
    if left_loop then [glfwWindowShouldClose true] else [] in
  (exists (styled : bool) (vps : list bool) (left_loop : bool),
     App.run env flag fuel app log
     = (Returns left_loop,
        log ++ prelude styled ++ concat (map frame vps) ++ closing left_loop) /\
     styled = negb (Z.land (ConfigFlags_now env log (App.ConfigFlags app)) flag =? 0) /\
     (forall (i : nat) (vp : bool), vps !! i = Some vp ->
        vp = negb (Z.land
                     (ConfigFlags_now env
                        (log ++ prelude styled ++ concat (map frame (take i vps))
                             ++ [glfwWindowShouldClose false;
                                 glfwPollEvents; ImGui_ImplOpenGL3_NewFrame;
                                 ImGui_ImplGlfw_NewFrame; ImGui_NewFrame]
                             ++ map Layer_render (App.layers_ app)
                             ++ [ImGui_Render; glfwGetFramebufferSize; glViewport;
                                 glClearColor; glClear GL_COLOR_BUFFER_BIT;
                                 ImGui_ImplOpenGL3_RenderDrawData])
                        (App.ConfigFlags app)) flag =? 0))) /\
  ((forall l flags, ConfigFlags_now env l flags = flags) -> flag <> 0 ->
     exists (n : nat) (left_loop : bool),
       App.run env flag fuel (Flags.enable_viewports K app) log
       = (Returns left_loop,
          log ++ [style_WindowRounding_assign; style_Colors_WindowBg_w_assign]
              ++ concat (replicate n (frame true)) ++ closing left_loop) /\
       (left_loop = false -> n = fuel)) /\
  ((forall l flags, ConfigFlags_now env l flags = flags) ->
     exists (n : nat) (left_loop : bool),
       App.run env flag fuel (Flags.disable_viewports K app) log
       = (Returns left_loop,
          log ++ concat (replicate n (frame false)) ++ closing left_loop) /\
       (left_loop = false -> n = fuel) /\
       Forall (fun c => is_viewport_call c = false)
              (concat (replicate n (frame false)) ++ closing left_loop)).
Proof.
  cbn zeta. split; [|split].
  - destruct (run_spelled env (ImGuiConfigFlags_ViewportsEnable K) fuel app log)
      as (styled & vps & left_loop & Hrun & Hstyled & Hframes & _).
    cbn zeta in Hrun, Hframes.
    exists styled, vps, left_loop. split; [exact Hrun|]. split; [exact Hstyled|].
    intros i vp Hi. destruct (Hframes i vp Hi) as (_ & Hvp).
    rewrite Hvp. unfold App.has_flag, frame_until_flags, frame_begin.
    reflexivity.
  - intros Halone Hnz.
    destruct (run_spelled env (ImGuiConfigFlags_ViewportsEnable K) fuel
                (Flags.enable_viewports K app) log)
      as (styled & vps & left_loop & Hrun & Hstyled & Hframes & Hend).
    cbn zeta in Hrun, Hframes, Hend.
    rewrite Halone, has_flag_after_enable in Hstyled by exact Hnz. subst styled.
    assert (Hall : vps = replicate (length vps) true).
    { apply all_equal_replicate. intros i vp Hi. destruct (Hframes i vp Hi) as (_ & Hvp).
      by rewrite Halone, has_flag_after_enable in Hvp. }
    exists (length vps), left_loop. rewrite Hall, map_replicate in Hrun.
    split; [exact Hrun|]. intros ->. exact Hend.
  - intros Halone.
    destruct (run_spelled env (ImGuiConfigFlags_ViewportsEnable K) fuel
                (Flags.disable_viewports K app) log)
      as (styled & vps & left_loop & Hrun & Hstyled & Hframes & Hend).
    cbn zeta in Hrun, Hframes, Hend.
    rewrite Halone, has_flag_after_disable in Hstyled. subst styled.
    assert (Hall : vps = replicate (length vps) false).
    { apply all_equal_replicate. intros i vp Hi. destruct (Hframes i vp Hi) as (_ & Hvp).
      by rewrite Halone, has_flag_after_disable in Hvp. }
    exists (length vps), left_loop. rewrite Hall, map_replicate in Hrun.
    split; [exact Hrun|]. split; [intros ->; exact Hend|].
    rewrite Forall_app. split.
    + apply Forall_concat, Forall_replicate.
      rewrite !Forall_app. repeat split; try (repeat constructor; fail).
      apply Forall_map, Forall_true. reflexivity.
    + destruct left_loop; repeat constructor.
Qed.

Lemma viewports_switch_drives_run_witness :
  (forall l flags, ConfigFlags_now example_env l flags = flags) /\
  1024 <> 0 /\
  exists (n : nat) (left_loop : bool),
    App.run example_env 1024 3
      (Flags.enable_viewports imgui_flags (App.mk 0 1 [Layer.mk 1 (Some 0%nat)])) []
    = (Returns left_loop,
       [style_WindowRounding_assign; style_Colors_WindowBg_w_assign]
       ++ concat (replicate n (glfwWindowShouldClose false
                               :: frame_calls true [Layer.mk 1 (Some 0%nat)]))
       ++ (if left_loop then [glfwWindowShouldClose true] else [])) /\
    (left_loop = false -> n = 3%nat).
Proof.
  split; [reflexivity|]. split; [discriminate|].
  destruct (viewports_switch_drives_run example_env imgui_flags 3
              (App.mk 0 1 [Layer.mk 1 (Some 0%nat)]) []) as (_ & Hon & _).
  apply Hon; [reflexivity | discriminate].
Defined.

(** ** Pushing several layers *)

(** X11. Pushing any number of layers one after the other keeps the layers
    already on the stack exactly as they were, adds the new ones behind
    them in push order, each with its back-pointer set to this App, and
    calls [on_push] once per pushed layer, in push order, each time on the
    layer as it was handed over. *)
Theorem push_layers_in_order (app : App.t) (layers : list Layer.t) (log : list call) :
  exists app',
    App.push_layers app layers log = (Returns app', log ++ map Layer_on_push layers) /\
    take (length (App.layers_ app)) (App.layers_ app') = App.layers_ app /\
    map Layer.id (drop (length (App.layers_ app)) (App.layers_ app')) = map Layer.id layers /\
    Forall (fun l => Layer.app l = Some (App.this_ app))
           (drop (length (App.layers_ app)) (App.layers_ app')) /\
    length (App.layers_ app') = (length (App.layers_ app) + length layers)%nat /\
    App.this_ app' = App.this_ app /\ App.ConfigFlags app' = App.ConfigFlags app.
Proof.
  eexists. split; [apply push_layers_returns|]. simpl.
  split; [by rewrite take_app_length|].
  rewrite drop_app_length.
  split.
  { rewrite map_map. apply map_ext. reflexivity. }
  split.
  { apply Forall_map. by apply Forall_true. }
  split; [by rewrite length_app, length_map|]. by split.
Qed.

(** ** Looking at the window *)

(** X12. [run] looks at the window before every frame, the first included,
    and nowhere else.  The calls of [run] are exactly: the optional style
    adjustment, then for every frame one look at the window that found it
    open followed by the whole frame, and at the end the one look that
    found the window closed.  Every frame was made because the look just
    before it found the window open, and the loop is left at the first look
    that finds it closed.  So if the window is already to be closed when
    the loop is entered, no frame is made and no layer hook is called; if
    it is not, at least one whole frame is made. *)
Theorem run_looks_before_each_frame
    (env : Env) (flag : Z) (fuel : nat) (app : App.t) (log : list call) :
  let frame := fun viewports : bool =>
         [glfwWindowShouldClose false;
          glfwPollEvents; ImGui_ImplOpenGL3_NewFrame; ImGui_ImplGlfw_NewFrame; ImGui_NewFrame]
         ++ map Layer_render (App.layers_ app)
         ++ [ImGui_Render; glfwGetFramebufferSize; glViewport; glClearColor;
             glClear GL_COLOR_BUFFER_BIT; ImGui_ImplOpenGL3_RenderDrawData]
         ++ (if viewports
             then [glfwGetCurrentContext; ImGui_UpdatePlatformWindows;
                   ImGui_RenderPlatformWindowsDefault; glfwMakeContextCurrent]
             else [])
         ++ [glfwSwapBuffers] in
  let prelude :=
    if negb (Z.land (ConfigFlags_now env log (App.ConfigFlags app)) flag =? 0)
    then [style_WindowRounding_assign; style_Colors_WindowBg_w_assign] else [] in
  exists (vps : list bool) (left_loop : bool),
    App.run env flag fuel app log
    = (Returns left_loop,
       log ++ prelude ++ concat (map frame vps)
           ++ (if left_loop then [glfwWindowShouldClose true] else [])) /\
    (forall i : nat, (i < length vps)%nat ->
       window_should_close env (log ++ prelude ++ concat (map frame (take i vps))) = false) /\
    (if left_loop
     then window_should_close env (log ++ prelude ++ concat (map frame vps)) = true
     else length vps = fuel) /\
    (window_should_close env (log ++ prelude) = true -> fuel <> 0%nat ->
       vps = [] /\ left_loop = true /\
       App.run env flag fuel app log
       = (Returns true, log ++ prelude ++ [glfwWindowShouldClose true]) /\
       Forall (fun c => is_hook_call c = false) (emitted (App.run env flag fuel app) log)) /\
    (window_should_close env (log ++ prelude) = false -> fuel <> 0%nat ->
       exists (vp : bool) (rest : list bool), vps = vp :: rest).
Proof.
  cbn zeta.
  destruct (run_spelled env flag fuel app log)
    as (styled & vps & left_loop & Hrun & Hstyled & Hframes & Hend).
  cbn zeta in Hrun, Hframes, Hend. unfold App.has_flag in Hstyled. subst styled.
  exists vps, left_loop.
  split; [exact Hrun|]. split.
  { intros i Hi. destruct (lookup_lt_is_Some_2 vps i Hi) as (vp & Hvp).
    by destruct (Hframes i vp Hvp) as (Hopen & _). }
  split; [exact Hend|]. split.
  - intros Hclosed Hfuel.
    assert (Hnone : vps = []).
    { destruct vps as [|vp rest]; [reflexivity|].
      destruct (Hframes 0%nat vp eq_refl) as (Hopen & _).
      cbn [take map concat] in Hopen. rewrite app_nil_r in Hopen. congruence. }
    subst vps.
    assert (Hleft : left_loop = true).
    { destruct left_loop; [reflexivity|]. simpl in Hend. congruence. }
    subst left_loop. cbn [map concat Datatypes.app] in Hrun.
    split; [reflexivity|]. split; [reflexivity|]. split; [exact Hrun|].
    rewrite (emitted_app _ _ _ _ Hrun).
    destruct (negb _); repeat constructor.
  - intros Hopen Hfuel. destruct vps as [|vp rest]; [|by exists vp, rest].
    cbn [map concat] in Hend. rewrite app_nil_r in Hend.
    destruct left_loop; [congruence|]. simpl in Hend. congruence.
Qed.

Lemma run_looks_before_each_frame_witness :
  window_should_close
    (mkEnv (fun _ _ => false) (fun _ _ => None) (fun _ => "") (fun _ => 0)
           (fun _ => true) (fun _ flags => flags)) [] = true /\
  App.run (mkEnv (fun _ _ => false) (fun _ _ => None) (fun _ => "") (fun _ => 0)
                 (fun _ => true) (fun _ flags => flags))
          1024 5 (App.mk 0 0 [Layer.mk 1 (Some 0%nat)]) []
  = (Returns true, [glfwWindowShouldClose true]).
Proof.
  split; [reflexivity|].
  destruct (run_looks_before_each_frame
              (mkEnv (fun _ _ => false) (fun _ _ => None) (fun _ => "") (fun _ => 0)
                     (fun _ => true) (fun _ flags => flags))
              1024 5 (App.mk 0 0 [Layer.mk 1 (Some 0%nat)]) [])
    as (vps & left_loop & _ & _ & _ & Hclosed & _).
  destruct Hclosed as (_ & _ & Hrun & _); [reflexivity | discriminate |].
  exact Hrun.
Defined.

(** ** Construction *)

Lemma ctor_cases setup K p this w h name :
  (Setup.glfwInit_ok setup = false /\
   Setup.ctor setup K p this w h name
   = (Setup.Exited 1,
      [Setup.glfwSetErrorCallback; Setup.glfwInit false; Setup.std_exit 1])) \/
  (Setup.glfwInit_ok setup = true /\ Setup.window_created setup = false /\
   Setup.ctor setup K p this w h name
   = (Setup.Exited 1,
      [Setup.glfwSetErrorCallback; Setup.glfwInit true] ++ Setup.window_hints p
        ++ [Setup.glfwCreateWindow w h name false; Setup.std_exit 1])) \/
  (Setup.glfwInit_ok setup = true /\ Setup.window_created setup = true /\
   exists started,
     Setup.ctor setup K p this w h name
     = (Setup.Constructed
          (App.mk this (Z.lor (Setup.io_ConfigFlags setup)
                              (ImGuiConfigFlags_NavEnableKeyboard K)) []),
        started) /\
     head started = Some Setup.glfwSetErrorCallback /\
     (Setup.std_exit 1 ∉ started) /\
     last started = Some (Setup.ImGui_ImplOpenGL3_Init (Setup.glsl_version p))).
Proof.
  unfold Setup.ctor.
  destruct (Setup.glfwInit_ok setup); [|by left].
  destruct (Setup.window_created setup); [|right; left; by repeat split].
  right; right. split; [reflexivity|]. split; [reflexivity|].
  eexists. split; [reflexivity|]. split; [reflexivity|]. split.
  - intros Hin. destruct p; simpl in Hin; not_in_log Hin.
  - by destruct p.
Qed.

(** X13. Constructing an App either ends the process or initialises it fully.
    If [glfwInit] fails the process exits with status 1 without asking for
    a window; if the window cannot be created it exits with status 1 before
    any GUI context exists; otherwise the App has an empty layer stack and
    keyboard navigation enabled, the other configuration bits being those
    of the fresh [ImGuiIO], and the last step is the OpenGL backend
    initialisation with the GLSL version of the platform. *)
Theorem construction_exits_or_initialises
    (setup : Setup.Env) (K : ImGuiConfigFlags) (p : Setup.platform)
    (this : nat) (w h : Z) (name : string) :
  exists (r : Setup.result) (started : list Setup.call),
    Setup.ctor setup K p this w h name = (r, started) /\
    head started = Some Setup.glfwSetErrorCallback /\
    (Setup.glfwInit_ok setup = false ->
       r = Setup.Exited 1 /\
       started = [Setup.glfwSetErrorCallback; Setup.glfwInit false; Setup.std_exit 1]) /\
    (Setup.glfwInit_ok setup = true -> Setup.window_created setup = false ->
       r = Setup.Exited 1 /\
       last started = Some (Setup.std_exit 1) /\
       (Setup.glfwCreateWindow w h name false ∈ started) /\
       (Setup.ImGui_CreateContext ∉ started) /\ (Setup.ImPlot_CreateContext ∉ started)) /\
    (Setup.glfwInit_ok setup = true -> Setup.window_created setup = true ->
       exists app,
         r = Setup.Constructed app /\
         App.layers_ app = [] /\ App.this_ app = this /\
         Flags.enabled K Flags.Keyboard app /\
         (forall g, Z.land (ImGuiConfigFlags_NavEnableKeyboard K) g = 0 ->
            Z.land (App.ConfigFlags app) g = Z.land (Setup.io_ConfigFlags setup) g) /\
         (Setup.std_exit 1 ∉ started) /\
         last started = Some (Setup.ImGui_ImplOpenGL3_Init (Setup.glsl_version p))).
Proof.
  destruct (ctor_cases setup K p this w h name)
    as [(Hinit & Hrun)|[(Hinit & Hwin & Hrun)
       |(Hinit & Hwin & started & Hrun & Hhead & Hexit & Hlast)]];
    rewrite Hrun; eexists _, _; (split; [reflexivity|]).
  - split; [reflexivity|]. split; [done|]. split; congruence.
  - split; [reflexivity|]. split; [congruence|]. split; [|congruence].
    intros _ _. split; [reflexivity|].
    split; [by destruct p|].
    split; [rewrite !elem_of_app; right; right; by left|].
    split; intros Hin; destruct p; simpl in Hin; not_in_log Hin.
  - split; [exact Hhead|]. split; [congruence|]. split; [congruence|].
    intros _ _. eexists. split; [reflexivity|].
    split; [reflexivity|]. split; [reflexivity|].
    split; [unfold Flags.enabled; simpl; apply lor_sets|].
    split; [intros g Hg; simpl; by apply lor_keeps_other|].
    split; [exact Hexit | exact Hlast].
Qed.

Lemma construction_exits_or_initialises_witness :
  fst (Setup.ctor (Setup.mkEnv true false 0) imgui_flags Setup.Desktop 0 1080 1080 "ImApp Demo")
  = Setup.Exited 1.
Proof.
  destruct (construction_exits_or_initialises (Setup.mkEnv true false 0) imgui_flags
              Setup.Desktop 0 1080 1080 "ImApp Demo")
    as (r & started & Hrun & _ & _ & Hnowindow & _).
  rewrite Hrun. simpl. apply Hnowindow; reflexivity.
Defined.

(** ** The window icon *)



(** ** The PNG compression hook *)

(** X16. [zlib_compression_for_stbiw] returns [NULL] exactly when the
    allocation or the compression fails, and then stores nothing through
    [out_len].  It never loses a buffer: the one buffer it may allocate is
    either returned (and then not freed: the caller frees it) or freed
    (when the compression failed).  On success [out_len] receives the
    compressed length, exactly so when that length is below 2^31. *)
Theorem zlib_hook_never_leaks
    (uLong_modulus : Z) (env : Zlib.Env) (data : list Z) (data_len quality : Z) :
  exists (ret : option nat) (out_len : option Z) (log : list Zlib.call),
    Zlib.zlib_compression_for_stbiw uLong_modulus env data data_len quality = (ret, out_len, log) /\
    Zlib.allocated log = Zlib.freed log ++ option_list ret /\
    (length (Zlib.allocated log) <= 1)%nat /\
    (ret = None <-> out_len = None) /\
    (ret = None <->
       Zlib.allocate env (Zlib.bound env (Zlib.to_uLong uLong_modulus data_len)) = None \/
       exists buf,
         Zlib.allocate env (Zlib.bound env (Zlib.to_uLong uLong_modulus data_len)) = Some buf /\
         fst (Zlib.compress env buf (Zlib.bound env (Zlib.to_uLong uLong_modulus data_len)) data
                (Zlib.to_uLong uLong_modulus data_len) quality) <> Zlib.Z_OK) /\
    (forall buf, ret = Some buf ->
       Zlib.allocate env (Zlib.bound env (Zlib.to_uLong uLong_modulus data_len)) = Some buf /\
       exists written,
         Zlib.compress env buf (Zlib.bound env (Zlib.to_uLong uLong_modulus data_len)) data
           (Zlib.to_uLong uLong_modulus data_len) quality = (Zlib.Z_OK, written) /\
         out_len = Some (Zlib.uLong_to_int written) /\
         (0 <= written < 2 ^ 31 -> out_len = Some written)).
Proof.
  unfold Zlib.zlib_compression_for_stbiw.
  set (size := Zlib.bound env (Zlib.to_uLong uLong_modulus data_len)).
  destruct (Zlib.allocate env size) as [buf|] eqn:Halloc.
  - destruct (Zlib.compress env buf size data (Zlib.to_uLong uLong_modulus data_len) quality)
      as [status written] eqn:Hcompress.
    destruct (Z.eqb_spec status Zlib.Z_OK) as [->|Hfail]; simpl.
    + eexists _, _, _. split; [reflexivity|]. split; [reflexivity|].
      split; [simpl; lia|]. split; [split; discriminate|]. split.
      * split; [discriminate|]. intros [Hnone|(buf' & [= <-] & Hne)]; [discriminate|].
        rewrite Hcompress in Hne. by destruct Hne.
      * intros buf' [= <-]. split; [reflexivity|]. exists written.
        rewrite Hcompress. split; [reflexivity|]. split; [reflexivity|].
        intros Hsmall. unfold Zlib.uLong_to_int.
        rewrite Z.mod_small by lia. by rewrite to_int_small.
    + eexists _, _, _. split; [reflexivity|]. split; [reflexivity|].
      split; [simpl; lia|]. split; [done|]. split; [|discriminate].
      split; [|done]. intros _. right. exists buf. split; [reflexivity|].
      by rewrite Hcompress.
  - eexists _, _, _. split; [reflexivity|]. split; [reflexivity|].
    split; [simpl; lia|]. split; [done|]. split; [|discriminate].
    split; [intros _; by left | done].
Qed.

Lemma zlib_hook_never_leaks_witness :
  Zlib.zlib_compression_for_stbiw (2 ^ 64)
    (Zlib.mkEnv (fun n => n + 13) (fun _ => Some 1%nat) (fun _ _ _ _ _ => (0, 5)))
    [1; 2; 3] 3 8
  = (Some 1%nat, Some 5,
     [Zlib.compressBound 3 16; Zlib.malloc 16 (Some 1%nat);
      Zlib.compress2 1 16 [1; 2; 3] 3 8 0 5]).
Proof.
  destruct (zlib_hook_never_leaks (2 ^ 64)
              (Zlib.mkEnv (fun n => n + 13) (fun _ => Some 1%nat) (fun _ _ _ _ _ => (0, 5)))
              [1; 2; 3] 3 8) as (ret & out_len & log & Hrun & _ & _ & _ & _ & Hok).
  rewrite Hrun. vm_compute in Hrun. injection Hrun as <- <- <-.
  destruct (Hok 1%nat eq_refl) as (_ & written & Hwritten & _ & Hsmall).
  reflexivity.
Defined.
